(** * Dragon: operator base, device operator, tensor-fill helpers

    A shallow embedding of [Dragon/include/core/operator.h]: the
    [OperatorBase] accessors, the constructor and [Run] of
    [Operator<Context>], [MemorySwitch], [_MPICheck], and the macros
    [TENSOR_FILL] and [INIT_MULTIPLIER].

    Conventions.
    - A CHECK that fails, and every other fatal condition, is the
      outcome [Fatal] carrying the diagnostic; behaviour the C++ standard
      leaves undefined (a null dereference, an index past the end of a
      vector, a signed overflow) is the outcome [Undefined].
    - Stateful code is a function from a state to an outcome and the state
      reached, so that what happened before an abort stays visible.
    - [int] is 32 bits wide and [size_t] 64 bits wide; both are carried by
      [Z] with the conversions written out. *)

From stdpp Require Import base gmap strings list pretty.
From Stdlib Require Import ZArith Lia.

Local Open Scope Z_scope.

(** ** Outcomes and the state-and-abort monad *)

Inductive UB : Type :=
| NullDereference
| OutOfBounds
| DanglingReference
| SignedOverflow.

Inductive Outcome (A : Type) : Type :=
| Ok (a : A)
| Fatal (diag : string)
| Undefined (ub : UB).

Arguments Ok {A} a.
Arguments Fatal {A} diag.
Arguments Undefined {A} ub.

Definition bindO {A B : Type} (o : Outcome A) (k : A -> Outcome B) : Outcome B :=
  match o with
  | Ok a => k a
  | Fatal d => Fatal d
  | Undefined u => Undefined u
  end.

Definition M (S A : Type) : Type := S -> Outcome A * S.

Definition ret {S A : Type} (a : A) : M S A := fun s => (Ok a, s).

Definition bindM {S A B : Type} (c : M S A) (k : A -> M S B) : M S B :=
  fun s =>
    match c s with
    | (Ok a, s') => k a s'
    | (Fatal d, s') => (Fatal d, s')
    | (Undefined u, s') => (Undefined u, s')
    end.

Definition liftO {S A : Type} (o : Outcome A) : M S A := fun s => (o, s).

Definition get {S : Type} : M S S := fun s => (Ok s, s).

Declare Scope op_scope.
Delimit Scope op_scope with op.

Notation "'let?' x ':=' c 'in' k" := (bindO c (fun x => k))
  (at level 10, x pattern, c at level 100, k at level 200) : op_scope.
Notation "'let!' x ':=' c 'in' k" := (bindM c (fun x => k))
  (at level 10, x pattern, c at level 100, k at level 200) : op_scope.
Notation "c1 ;;; c2" := (bindM c1 (fun _ => c2))
  (at level 100, c2 at level 200, right associativity) : op_scope.

Local Open Scope op_scope.

(** ** Machine integers *)

Definition wrap_signed (w z : Z) : Z := (z + 2 ^ (w - 1)) mod 2 ^ w - 2 ^ (w - 1).

(** The value of [(int)z]. *)
Definition to_int (z : Z) : Z := wrap_signed 32 z.

(** The value of [z] converted to [size_t]. *)
Definition to_size_t (z : Z) : Z := z mod 2 ^ 64.

Definition INT_MIN : Z := - 2 ^ 31.
Definition INT_MAX : Z := 2 ^ 31 - 1.

Definition is_int (z : Z) : Prop := INT_MIN <= z <= INT_MAX.

(** ** glog checks *)

Definition check_diag (cond : string) (a b : Z) : string :=
  "Check failed: " +:+ cond +:+ " (" +:+ pretty a +:+ " vs. " +:+ pretty b +:+ ") ".

Definition CHECK_LT (cond : string) (a b : Z) : Outcome unit :=
  if a <? b then Ok tt else Fatal (check_diag cond a b).

Definition CHECK_GE (cond : string) (a b : Z) : Outcome unit :=
  if a >=? b then Ok tt else Fatal (check_diag cond a b).

(** [v[k]] on a [std::vector], [k] a [size_t]. *)
Definition vector_at {A : Type} (v : list A) (k : Z) : Outcome A :=
  match v !! Z.to_nat k with
  | Some x => Ok x
  | None => Undefined OutOfBounds
  end.

(** ** The operator descriptor *)

Inductive DeviceType : Type := CPU | CUDA | CUDNN.

Record DeviceOption : Type := {
  device_type : DeviceType;
  device_id : Z
}.

(** Modelled from the spec: the protobuf message [Argument] is declared
    outside this header.  It carries a name and exactly one populated value
    slot; a float is carried by its bit pattern. *)
Inductive ArgValue : Type :=
| ArgInt (i : Z)
| ArgFloat (bits : Z)
| ArgString (s : string)
| ArgInts (l : list Z)
| ArgFloats (l : list Z)
| ArgStrings (l : list string).

Record Argument : Type := {
  arg_name : string;
  arg_value : ArgValue
}.

(** Modelled from the spec: the protobuf message [OperatorDef] is declared
    outside this header.  The fields are prefixed with [def_] because
    [input], [output], [name] and [type] are also methods of the operator. *)
Record OperatorDef : Type := {
  def_name : string;
  def_type : string;
  def_input : list string;
  def_output : list string;
  def_device_option : DeviceOption;
  def_debug_mode : bool;
  def_arg : list Argument
}.

(** ** Tensors and the workspace *)

(** Modelled from the spec: [Tensor] and [Workspace] are declared in
    core/tensor.h and core/workspace.h.  The workspace owns one tensor per
    name, and a [Tensor*] or [Tensor&] held by an operator is the name the
    tensor is stored under, which is what [name()] returns. *)
Abbreviation TensorRef := string (only parsing).

Definition tensor_name (t : TensorRef) : string := t.

(** A pointer into the descriptor's argument list: [None] is the null
    pointer, [Some i] the address of the [i]-th argument. *)
Abbreviation ArgPtr := (option nat) (only parsing).

(** ** OperatorBase *)

(** The members of [OperatorBase].  The pointer [ws_] is not a field: there
    is one workspace, and the code that uses it takes it as its state. *)
Record OperatorBase : Type := {
  phase_ : string;
  args_ : gmap string ArgPtr;
  inputs_ : list TensorRef;
  outputs_ : list TensorRef;
  op_def_ : OperatorDef
}.

(** [v.size()], a [size_t]. *)
Definition vector_size {A : Type} (v : list A) : Z := Z.of_nat (length v).

Definition InputSize (op : OperatorBase) : Z := vector_size (inputs_ op).

Definition OutputSize (op : OperatorBase) : Z := vector_size (outputs_ op).

(** [vector_index v idx] is the body shared by [input] and [output]:
    the two CHECKs, then [v[idx]] or [v[idx + v.size()]], the sum being
    taken in [size_t]. *)
Definition vector_index (what : string) (v : list TensorRef) (idx : Z)
  : Outcome TensorRef :=
  let size := vector_size v in
  let? _ := CHECK_LT ("idx < (int)" +:+ what +:+ ".size()") idx (to_int size) in
  let? _ := CHECK_GE ("idx >= -(int)" +:+ what +:+ ".size()") idx
                     (to_int (- to_int size)) in
  if idx >=? 0 then vector_at v (to_size_t idx)
  else vector_at v (to_size_t (to_size_t idx + size)).

Definition input (op : OperatorBase) (idx : Z) : Outcome TensorRef :=
  vector_index "inputs_" (inputs_ op) idx.

Definition output (op : OperatorBase) (idx : Z) : Outcome TensorRef :=
  vector_index "outputs_" (outputs_ op) idx.

Definition SwitchToPhase (phase : string) (op : OperatorBase) : OperatorBase :=
  {| phase_ := phase; args_ := args_ op; inputs_ := inputs_ op;
     outputs_ := outputs_ op; op_def_ := op_def_ op |}.

Definition name (op : OperatorBase) : string := def_name (op_def_ op).
Definition type (op : OperatorBase) : string := def_type (op_def_ op).
Definition phase (op : OperatorBase) : string := phase_ op.
Definition args (op : OperatorBase) : gmap string ArgPtr := args_ op.
Definition op_def (op : OperatorBase) : OperatorDef := op_def_ op.

(** ** Reading arguments *)

(** [*p] for a pointer into the argument list of the operator's own
    descriptor. *)
Definition deref_arg (op : OperatorBase) (p : ArgPtr) : Outcome Argument :=
  match p with
  | None => Undefined NullDereference
  | Some i =>
      match def_arg (op_def_ op) !! i with
      | Some a => Ok a
      | None => Undefined DanglingReference
      end
  end.

(** [m[k]] on the [Map] of the header (a standard associative container):
    an absent key is inserted with a value-initialised, hence null,
    pointer. *)
Definition map_subscript (m : gmap string ArgPtr) (k : string)
  : ArgPtr * gmap string ArgPtr :=
  match m !! k with
  | Some p => (p, m)
  | None => (None, <[k := None]> m)
  end.

Definition with_args (op : OperatorBase) (m : gmap string ArgPtr) : OperatorBase :=
  {| phase_ := phase_ op; args_ := m; inputs_ := inputs_ op;
     outputs_ := outputs_ op; op_def_ := op_def_ op |}.

(** [arg(name)]: [*(args_[name])]. *)
Definition arg (name : string) : M OperatorBase Argument :=
  fun op =>
    let (p, m) := map_subscript (args_ op) name in
    let op' := with_args op m in
    (deref_arg op' p, op').

Definition coerce_int (z : Z) : Outcome Z :=
  if (INT_MIN <=? z) && (z <=? INT_MAX) then Ok z
  else Fatal ("argument value " +:+ pretty z +:+ " does not fit the requested type").

Fixpoint coerce_ints (l : list Z) : Outcome (list Z) :=
  match l with
  | [] => Ok []
  | z :: l' =>
      let? i := coerce_int z in
      let? r := coerce_ints l' in
      Ok (i :: r)
  end.

(** Modelled from the spec: [GetRepeatedArg<int>] is defined in
    operator.cc.  It returns the repeated values stored under the name,
    coerced element-wise, or the empty sequence when the name is absent; a
    stored kind other than the requested one and a value that does not fit
    are fatal. *)
Definition GetRepeatedArg_int (op : OperatorBase) (name : string)
  : Outcome (list Z) :=
  match args_ op !! name with
  | None => Ok []
  | Some p =>
      let? a := deref_arg op p in
      match arg_value a with
      | ArgInts l => coerce_ints l
      | _ => Fatal ("argument " +:+ name +:+ " does not hold repeated integers")
      end
  end.

(** Modelled from the spec: [GetSingleArg<string>] is defined in
    operator.cc.  It returns the value stored under the name, or the default
    when the name is absent; a stored kind other than the requested one is
    fatal. *)
Definition GetSingleArg_string (op : OperatorBase) (name default_value : string)
  : Outcome string :=
  match args_ op !! name with
  | None => Ok default_value
  | Some p =>
      let? a := deref_arg op p in
      match arg_value a with
      | ArgString s => Ok s
      | _ => Fatal ("argument " +:+ name +:+ " does not hold a string")
      end
  end.

(** ** The rank gate *)

(** What the build and the MPI runtime decide: whether [WITH_MPI] is
    defined, and the rank [MPI_Comm_rank] reports for [MPI_COMM_WORLD]. *)
Record Env : Type := {
  WITH_MPI : bool;
  MPI_Comm_rank : Z
}.

(** The loop [for (auto mpi_rank : allow_ranks) if (cur_rank == mpi_rank)
    return true;] followed by [return false]. *)
Fixpoint rank_listed (cur_rank : Z) (allow_ranks : list Z) : bool :=
  match allow_ranks with
  | [] => false
  | mpi_rank :: rest =>
      if cur_rank =? mpi_rank then true else rank_listed cur_rank rest
  end.

Definition _MPICheck (env : Env) (op : OperatorBase) : Outcome bool :=
  if negb (WITH_MPI env) then Ok true
  else
    let? allow_ranks := GetRepeatedArg_int op "mpi_rank" in
    match allow_ranks with
    | [] => Ok true
    | _ :: _ => Ok (rank_listed (MPI_Comm_rank env) allow_ranks)
    end.

Section Dragon.

(** The element type [T] of the kernel templates. *)
Context {T : Type}.

(** ** Tensors, fillers and the workspace *)

(** Modelled from the spec: [Tensor] (core/tensor.h).  [count()] is the
    element count, zero for a tensor that was never shaped; [Reshape] sets
    the shape and the count and moves no data. *)
Record Tensor : Type := {
  dims_ : list Z;
  size_ : Z;
  data_ : list T
}.

Definition new_Tensor : Tensor := {| dims_ := []; size_ := 0; data_ := [] |}.

Definition count (t : Tensor) : Z := size_ t.

Definition shape_product (shape : list Z) : Z := fold_left Z.mul shape 1.

Definition Reshape (shape : list Z) (t : Tensor) : Tensor :=
  {| dims_ := shape; size_ := shape_product shape; data_ := data_ t |}.

(** Modelled from the spec: [math::Set(n, alpha, x)] (utils/math_functions.h)
    stores [alpha] into the first [n] elements behind [x]. *)
Definition math_Set (n : Z) (alpha : T) (x : list T) : list T :=
  replicate (Z.to_nat n) alpha ++ drop (Z.to_nat n) x.

Definition with_data (t : Tensor) (d : list T) : Tensor :=
  {| dims_ := dims_ t; size_ := size_ t; data_ := d |}.

(** Modelled from the spec: a filler (core/filler.h) is a named
    initialiser.  The descriptor determines the value written to each
    element; [Fill] writes every element of the tensor and leaves its shape
    alone. *)
Record TensorFiller : Type := {
  filler_value : nat -> T
}.

Definition Fill (f : TensorFiller) (t : Tensor) : Tensor :=
  with_data t (map (filler_value f) (seq 0 (Z.to_nat (count t)))).

(** Modelled from the spec: [Workspace] (core/workspace.h) owns the tensors
    and the fillers by name. *)
Record Workspace : Type := {
  tensor_map_ : gmap string Tensor;
  filler_map_ : gmap string TensorFiller
}.

Definition with_tensors (ws : Workspace) (m : gmap string Tensor) : Workspace :=
  {| tensor_map_ := m; filler_map_ := filler_map_ ws |}.

(** [CreateTensor(name)]: get or create. *)
Definition CreateTensor (name : string) : M Workspace TensorRef :=
  fun ws =>
    match tensor_map_ ws !! name with
    | Some _ => (Ok name, ws)
    | None => (Ok name, with_tensors ws (<[name := new_Tensor]> (tensor_map_ ws)))
    end.

(** [GetFiller(name)]: a pointer to the filler, or null. *)
Definition GetFiller (name : string) (ws : Workspace) : option TensorFiller :=
  filler_map_ ws !! name.

(** Reading and updating the tensor behind a reference. *)
Definition read_tensor (t : TensorRef) : M Workspace Tensor :=
  fun ws =>
    match tensor_map_ ws !! t with
    | Some x => (Ok x, ws)
    | None => (Undefined DanglingReference, ws)
    end.

Definition update_tensor (t : TensorRef) (f : Tensor -> Tensor) : M Workspace unit :=
  fun ws =>
    match tensor_map_ ws !! t with
    | Some x => (Ok tt, with_tensors ws (<[t := f x]> (tensor_map_ ws)))
    | None => (Undefined DanglingReference, ws)
    end.

(** ** Construction of the operator base *)

Fixpoint build_args (l : list Argument) (i : nat) (m : gmap string ArgPtr)
  : Outcome (gmap string ArgPtr) :=
  match l with
  | [] => Ok m
  | a :: l' =>
      match m !! arg_name a with
      | Some _ => Fatal ("duplicate argument " +:+ arg_name a)
      | None => build_args l' (S i) (<[arg_name a := Some i]> m)
      end
  end.

Definition resolve_input (name : string) : M Workspace TensorRef :=
  fun ws =>
    if String.eqb name "ignore" then (Ok name, ws)
    else
      match tensor_map_ ws !! name with
      | Some _ => (Ok name, ws)
      | None => (Fatal ("Tensor(" +:+ name +:+ ") does not exist"), ws)
      end.

Fixpoint resolve_all (f : string -> M Workspace TensorRef) (names : list string)
  : M Workspace (list TensorRef) :=
  match names with
  | [] => ret []
  | n :: rest =>
      let! t := f n in
      let! ts := resolve_all f rest in
      ret (t :: ts)
  end.

(** Modelled from the spec: the constructor [OperatorBase(op_def, ws)] is
    defined in operator.cc.  It stores the descriptor and the phase "TEST",
    builds the argument map rejecting duplicate names, resolves each input
    name to an existing tensor (the name "ignore" excepted) and each output
    name through [CreateTensor]. *)
Definition OperatorBase_ctor (op_def : OperatorDef) : M Workspace OperatorBase :=
  let! m := liftO (build_args (def_arg op_def) 0%nat ∅) in
  let! ins := resolve_all resolve_input (def_input op_def) in
  let! outs := resolve_all CreateTensor (def_output op_def) in
  ret {| phase_ := "TEST"; args_ := m; inputs_ := ins; outputs_ := outs;
         op_def_ := op_def |}.

(** ** Operator<Context> *)

(** Modelled from the spec: the device context is constructed from the
    device option; [SwitchToDevice] and [FinishDeviceCompution] are
    observed as calls. *)
Record Context : Type := {
  ctx_device : DeviceOption
}.

Record Operator : Type := {
  base : OperatorBase;
  ctx_ : Context;
  allow_run_ : bool
}.

Definition allow_run (op : Operator) : bool := allow_run_ op.
Definition ctx (op : Operator) : Context := ctx_ op.

(** [anchor()]: [GetSingleArg("anchor", name())]. *)
Definition anchor (op : Operator) : Outcome string :=
  GetSingleArg_string (base op) "anchor" (name (base op)).

(** The test [!(OutputSize() == 1 && output(0)->name() == "ignore")];
    [&&] evaluates [output(0)] only when the size is one. *)
Definition output_wanted (b : OperatorBase) : Outcome bool :=
  if OutputSize b =? 1 then
    let? t := output b 0 in
    Ok (negb (String.eqb (tensor_name t) "ignore"))
  else Ok true.

Definition Operator_ctor (env : Env) (op_def : OperatorDef) : M Workspace Operator :=
  let! b := OperatorBase_ctor op_def in
  let allow0 := true in
  let! gate := liftO (_MPICheck env b) in
  let allow1 := allow0 && gate in
  let! wanted := liftO (output_wanted b) in
  let allow2 := allow1 && wanted in
  ret {| base := b; ctx_ := {| ctx_device := def_device_option op_def |};
         allow_run_ := allow2 |}.

(** ** Running an operator *)

(** The calls [Run] and [MemorySwitch] make, in the order they are made. *)
Inductive Call : Type :=
| Ctx_SwitchToDevice
| Call_ShareBeforeRun
| Call_MemorySwitch
| Tensor_SwitchToDevice (t : TensorRef)
| Call_RunOnDevice
| Call_ClearAfterRun
| Ctx_FinishDeviceCompution.

Record World : Type := {
  workspace : Workspace;
  calls : list Call
}.

Definition log (c : Call) : M World unit :=
  fun w => (Ok tt, {| workspace := workspace w; calls := calls w ++ [c] |}).

(** A method that acts on the workspace, run inside [Run]. *)
Definition on_workspace {A : Type} (c : M Workspace A) : M World A :=
  fun w =>
    let (o, ws) := c (workspace w) in
    (o, {| workspace := ws; calls := calls w |}).

(** The virtual methods a concrete operator class supplies.  [RunOnDevice]
    is pure virtual; the other two default to [no_hook]. *)
Record Kernel : Type := {
  ShareBeforeRun : Operator -> M Workspace unit;
  RunOnDevice : Operator -> M Workspace unit;
  ClearAfterRun : Operator -> M Workspace unit
}.

Definition no_hook : Operator -> M Workspace unit := fun _ => ret tt.

(** [for (int i = 0; i < n; i++) body]. *)
Fixpoint for_each {S : Type} (l : list nat) (body : Z -> M S unit) : M S unit :=
  match l with
  | [] => ret tt
  | i :: l' => body (Z.of_nat i) ;;; for_each l' body
  end.

Definition for_int {S : Type} (n : Z) (body : Z -> M S unit) : M S unit :=
  for_each (seq 0 (Z.to_nat n)) body.

Definition MemorySwitch (op : Operator) : M World unit :=
  log Call_MemorySwitch ;;;
  for_int (InputSize (base op)) (fun i =>
    let! t := liftO (input (base op) i) in
    if negb (String.eqb (tensor_name t) "ignore") then
      let! t' := liftO (input (base op) i) in
      log (Tensor_SwitchToDevice t')
    else ret tt) ;;;
  for_int (OutputSize (base op)) (fun i =>
    let! t := liftO (output (base op) i) in
    if negb (String.eqb (tensor_name t) "ignore") then
      let! t' := liftO (output (base op) i) in
      log (Tensor_SwitchToDevice t')
    else ret tt).

Definition Run (k : Kernel) (op : Operator) : M World unit :=
  if negb (allow_run_ op) then ret tt
  else
    log Ctx_SwitchToDevice ;;;
    (if negb (def_debug_mode (op_def_ (base op)))
     then log Call_ShareBeforeRun ;;; on_workspace (ShareBeforeRun k op)
     else ret tt) ;;;
    MemorySwitch op ;;;
    (log Call_RunOnDevice ;;; on_workspace (RunOnDevice k op)) ;;;
    (if negb (def_debug_mode (op_def_ (base op)))
     then log Call_ClearAfterRun ;;; on_workspace (ClearAfterRun k op)
     else ret tt) ;;;
    log Ctx_FinishDeviceCompution.

(** *** Vocabulary for statements about the calls made *)

Definition add_calls (w : World) (l : list Call) : World :=
  {| workspace := workspace w; calls := calls w ++ l |}.

(** A tensor whose name is not "ignore". *)
Definition named (t : TensorRef) : bool :=
  negb (String.eqb (tensor_name t) "ignore").

(** The migration requests for the named inputs and outputs of an operator,
    inputs first, each in the order of the descriptor. *)
Definition switched (op : Operator) : list Call :=
  map Tensor_SwitchToDevice
      (List.filter named (inputs_ (base op) ++ outputs_ (base op))).

Definition is_finish (c : Call) : bool :=
  match c with
  | Ctx_FinishDeviceCompution => true
  | _ => false
  end.

(** How often [FinishDeviceCompution] occurs among the calls [l]. *)
Definition n_finish (l : list Call) : nat := length (List.filter is_finish l).

(** How often the name [t] occurs in a vector of tensors. *)
Definition occurrences (t : string) (l : list TensorRef) : nat :=
  length (List.filter (String.eqb t) l).

Definition is_switch_of (t : string) (c : Call) : bool :=
  match c with
  | Tensor_SwitchToDevice t' => String.eqb t t'
  | _ => false
  end.

(** How often the tensor [t] is asked to switch to the device among the
    calls [l]. *)
Definition requests_for (t : string) (l : list Call) : nat :=
  length (List.filter (is_switch_of t) l).

(** [emits P c]: whatever the outcome, the calls [c] adds all satisfy [P]. *)
Definition emits (P : Call -> Prop) {A : Type} (c : M World A) : Prop :=
  forall (w : World) (o : Outcome A) (w' : World),
    c w = (o, w') ->
    exists new : list Call, calls w' = calls w ++ new /\ Forall P new.

(** A call that is not a request to migrate a tensor named "ignore". *)
Definition spares_ignore (c : Call) : Prop :=
  forall t, c = Tensor_SwitchToDevice t -> tensor_name t <> "ignore".

Definition not_finish (c : Call) : Prop := is_finish c = false.

(** [finishes c]: when [c] returns, [FinishDeviceCompution] is the last call
    it added and the only such call; when [c] does not return, it added
    none. *)
Definition finishes (c : M World unit) : Prop :=
  forall (w : World) (o : Outcome unit) (w' : World),
    c w = (o, w') ->
    exists new : list Call,
      calls w' = calls w ++ new /\
      (o = Ok tt ->
         exists before : list Call,
           new = before ++ [Ctx_FinishDeviceCompution] /\
           n_finish before = 0%nat) /\
      (o <> Ok tt -> n_finish new = 0%nat).

(** ** TENSOR_FILL and INIT_MULTIPLIER *)

(** [TIndex] is declared outside this header: a signed integer type, of
    [TIndex_bits] bits.  The value [dragon_cast<T, float>(1.0f)] is [one]. *)
Variable TIndex_bits : Z.
Variable one : T.

Definition TIndex_fits (z : Z) : bool :=
  (- 2 ^ (TIndex_bits - 1) <=? z) && (z <? 2 ^ (TIndex_bits - 1)).

(** [TIndex count = 1; for (int i = 0; i < shape.size(); i++)
    count *= shape[i];], started from [count]. *)
Fixpoint requested_count (shape : list Z) (count : Z) : Outcome Z :=
  match shape with
  | [] => Ok count
  | d :: rest =>
      if TIndex_fits (count * d) then requested_count rest (count * d)
      else Undefined SignedOverflow
  end.

Definition nl : string := String (Ascii.ascii_of_nat 10) EmptyString.

Definition empty_diag (t : TensorRef) : string :=
  "Check failed: ws()->GetFiller(tensor.name()) " +:+
  "Tensor(" +:+ tensor_name t +:+ ") is empty. " +:+ nl +:+
  "may be specify a filler for it ?".

Definition size_diag (t : TensorRef) (requested actual : Z) : string :=
  check_diag "count == tensor.count()" requested actual +:+
  nl +:+ "model request " +:+ "Tensor(" +:+ tensor_name t +:+ ")'s " +:+
  "size is " +:+ pretty requested +:+ nl +:+
  "but now is " +:+ pretty actual +:+ nl +:+
  "may be feed the incorrect Tensor before ?".

(** [mentions part whole]: the text [part] occurs in [whole]. *)
Definition mentions (part whole : string) : Prop :=
  exists pre post : string, whole = pre +:+ part +:+ post.

(** [*p] for the pointer [GetFiller] returned. *)
Definition deref_filler (p : option TensorFiller) : Outcome TensorFiller :=
  match p with
  | Some f => Ok f
  | None => Undefined NullDereference
  end.

Definition TENSOR_FILL (tensor : TensorRef) (shape : list Z) : M Workspace unit :=
  let! t := read_tensor tensor in
  if count t =? 0 then
    let! ws := get in
    (match GetFiller (tensor_name tensor) ws with
     | Some _ => ret tt
     | None => liftO (Fatal (empty_diag tensor))
     end) ;;;
    update_tensor tensor (Reshape shape) ;;;
    let! ws' := get in
    let! filler := liftO (deref_filler (GetFiller (tensor_name tensor) ws')) in
    update_tensor tensor (Fill filler)
  else
    let! requested := liftO (requested_count shape 1) in
    let! t' := read_tensor tensor in
    (if requested =? count t' then ret tt
     else liftO (Fatal (size_diag tensor requested (count t')))) ;;;
    update_tensor tensor (Reshape shape).

(** The macro assigns the tensor to its first argument; here it is the
    value returned. *)
Definition INIT_MULTIPLIER (size : Z) : M Workspace TensorRef :=
  let! ptr_tensor := CreateTensor "_t_multiplier" in
  let! t := read_tensor ptr_tensor in
  if size >? count t then
    update_tensor ptr_tensor (Reshape [size]) ;;;
    update_tensor ptr_tensor (fun x => with_data x (math_Set size one (data_ x))) ;;;
    ret ptr_tensor
  else ret ptr_tensor.

(** One call of [INIT_MULTIPLIER] after another, one per requested size. *)
Fixpoint INIT_MULTIPLIER_each (sizes : list Z) : M Workspace unit :=
  match sizes with
  | [] => ret tt
  | size :: rest => INIT_MULTIPLIER size ;;; INIT_MULTIPLIER_each rest
  end.

(** The count of the tensor "_t_multiplier", zero while it does not exist
    (as for a tensor just created). *)
Definition multiplier_count (ws : Workspace) : Z :=
  match tensor_map_ ws !! "_t_multiplier" with
  | Some t => count t
  | None => 0
  end.

(** The multiplier, when it exists, holds [one] in each of its [count]
    elements. *)
Definition multiplier_holds_ones (ws : Workspace) : Prop :=
  forall t : Tensor,
    tensor_map_ ws !! "_t_multiplier" = Some t ->
    take (Z.to_nat (count t)) (data_ t) = replicate (Z.to_nat (count t)) one.

End Dragon.

(** * Sample descriptors, operators and workspaces *)

Definition cpu0 : DeviceOption := {| device_type := CPU; device_id := 0 |}.

Definition add_def : OperatorDef :=
  {| def_name := "add1"; def_type := "Add";
     def_input := ["a"; "b"; "ignore"]; def_output := ["c"];
     def_device_option := cpu0; def_debug_mode := false;
     def_arg := [ {| arg_name := "mpi_rank"; arg_value := ArgInts [0; 2] |};
                  {| arg_name := "axis"; arg_value := ArgInt 1 |} ] |}.

Definition add_base : OperatorBase :=
  {| phase_ := "TEST";
     args_ := {[ "mpi_rank" := Some 0%nat; "axis" := Some 1%nat ]};
     inputs_ := ["a"; "b"; "ignore"]; outputs_ := ["c"];
     op_def_ := add_def |}.

Definition add_op : Operator :=
  {| base := add_base; ctx_ := {| ctx_device := cpu0 |}; allow_run_ := true |}.

Definition ignore_def : OperatorDef :=
  {| def_name := "add2"; def_type := "Add";
     def_input := ["a"; "b"]; def_output := ["ignore"];
     def_device_option := cpu0; def_debug_mode := false;
     def_arg := [] |}.

Definition ws_ab : @Workspace Z :=
  {| tensor_map_ := {[ "a" := new_Tensor; "b" := new_Tensor ]};
     filler_map_ := ∅ |}.

(** The tensor "w" with six elements, and "v" empty with a filler. *)
Definition ws_w : @Workspace Z :=
  {| tensor_map_ :=
       {[ "w" := {| dims_ := [6]; size_ := 6; data_ := [1; 2; 3; 4; 5; 6] |};
          "v" := new_Tensor ]};
     filler_map_ := {[ "v" := {| filler_value := fun _ => 7 |} ]} |}.

Definition world_ab : @World Z := {| workspace := ws_ab; calls := [] |}.

Definition no_mpi : Env := {| WITH_MPI := false; MPI_Comm_rank := 0 |}.

(** A kernel with the default hooks and an empty [RunOnDevice]. *)
Definition idle_kernel : @Kernel Z :=
  {| ShareBeforeRun := no_hook; RunOnDevice := no_hook; ClearAfterRun := no_hook |}.

(** A kernel whose [RunOnDevice] fails a CHECK. *)
Definition failing_kernel : @Kernel Z :=
  {| ShareBeforeRun := no_hook;
     RunOnDevice := fun _ => liftO (Fatal "Check failed: kernel");
     ClearAfterRun := no_hook |}.

(** An operator that works in place: its output is its input. *)
Definition relu_def : OperatorDef :=
  {| def_name := "relu1"; def_type := "Relu";
     def_input := ["a"]; def_output := ["a"];
     def_device_option := cpu0; def_debug_mode := true;
     def_arg := [ {| arg_name := "anchor"; arg_value := ArgString "relu" |} ] |}.

Definition relu_op : Operator :=
  {| base := {| phase_ := "TEST"; args_ := {[ "anchor" := Some 0%nat ]};
                inputs_ := ["a"]; outputs_ := ["a"]; op_def_ := relu_def |};
     ctx_ := {| ctx_device := cpu0 |}; allow_run_ := true |}.

(** An operator that only consumes: it has no output. *)
Definition sink_def : OperatorDef :=
  {| def_name := "print1"; def_type := "Print";
     def_input := ["a"]; def_output := [];
     def_device_option := cpu0; def_debug_mode := false;
     def_arg := [] |}.

Definition sink_base : OperatorBase :=
  {| phase_ := "TEST"; args_ := ∅; inputs_ := ["a"]; outputs_ := [];
     op_def_ := sink_def |}.

Definition rank1 : Env := {| WITH_MPI := true; MPI_Comm_rank := 1 |}.

(** Kernels whose [ShareBeforeRun], resp. [ClearAfterRun], fails a CHECK. *)
Definition share_failing_kernel : @Kernel Z :=
  {| ShareBeforeRun := fun _ => liftO (Fatal "Check failed: share");
     RunOnDevice := no_hook;
     ClearAfterRun := no_hook |}.

Definition clear_failing_kernel : @Kernel Z :=
  {| ShareBeforeRun := no_hook;
     RunOnDevice := no_hook;
     ClearAfterRun := fun _ => liftO (Fatal "Check failed: clear") |}.

(** * Properties *)

(** ** Sequencing *)

Lemma bindM_ok {S A B : Type} (c : M S A) (k : A -> M S B) (s s' : S) (a : A) :
  c s = (Ok a, s') -> bindM c k s = k a s'.
Proof. intros H. unfold bindM. rewrite H. reflexivity. Qed.

Lemma bindM_fatal {S A B : Type} (c : M S A) (k : A -> M S B) (s s' : S)
      (d : string) :
  c s = (Fatal d, s') -> bindM c k s = (Fatal d, s').
Proof. intros H. unfold bindM. rewrite H. reflexivity. Qed.

(** [step_with H] runs the next call of a sequence, [H] giving its
    result; [stop_with H] ends the sequence at a call that is fatal. *)
Tactic Notation "step_with" uconstr(H) := rewrite (bindM_ok _ _ _ _ _ H).
Tactic Notation "stop_with" uconstr(H) := rewrite (bindM_fatal _ _ _ _ _ H).

(** ** The sample operator *)

(** [add_op] is the operator the constructor builds from [add_def], on a
    build without MPI and in the workspace holding "a" and "b"; the output
    "c" is created on the way. *)
Example add_op_constructed :
  Operator_ctor no_mpi add_def ws_ab =
    (Ok add_op, with_tensors ws_ab (<["c" := new_Tensor]> (tensor_map_ ws_ab))).
Proof. reflexivity. Qed.

(** ** Machine integers *)

Lemma to_int_small (z : Z) : is_int z -> to_int z = z.
Proof.
  unfold is_int, INT_MIN, INT_MAX, to_int, wrap_signed.
  change (2 ^ (32 - 1)) with 2147483648.
  change (2 ^ 32) with 4294967296.
  change (2 ^ 31) with 2147483648.
  intros H. rewrite Z.mod_small; lia.
Qed.

Lemma to_size_t_small (z : Z) : 0 <= z < 2 ^ 64 -> to_size_t z = z.
Proof. intros H. unfold to_size_t. apply Z.mod_small. exact H. Qed.

Lemma to_size_t_negative (idx : Z) :
  - 2 ^ 64 <= idx < 0 -> to_size_t idx = idx + 2 ^ 64.
Proof.
  change (2 ^ 64) with 18446744073709551616.
  intros H. unfold to_size_t. symmetry.
  change (2 ^ 64) with 18446744073709551616.
  apply (Z.mod_unique idx 18446744073709551616 (-1)); lia.
Qed.

Lemma size_t_tail_index (idx size : Z) :
  INT_MIN <= idx < 0 -> 0 <= idx + size -> size <= INT_MAX ->
  to_size_t (to_size_t idx + size) = idx + size.
Proof.
  unfold INT_MIN, INT_MAX. change (2 ^ 31) with 2147483648. intros Hi Hs Hm.
  rewrite (to_size_t_negative idx)
    by (change (2 ^ 64) with 18446744073709551616; lia).
  unfold to_size_t.
  replace (idx + 2 ^ 64 + size) with (idx + size + 1 * 2 ^ 64) by ring.
  rewrite Z_mod_plus_full. apply Z.mod_small.
  change (2 ^ 64) with 18446744073709551616. lia.
Qed.

(** ** Index lookup *)

Section VectorIndex.

Variable what : string.
Variable v : list TensorRef.
Hypothesis size_fits : vector_size v <= INT_MAX.

Lemma vector_size_casts :
  to_int (vector_size v) = vector_size v /\
  to_int (- to_int (vector_size v)) = - vector_size v.
Proof.
  assert (H0 : 0 <= vector_size v) by (unfold vector_size; lia).
  assert (Hi : is_int (vector_size v)).
  { unfold is_int, INT_MIN, INT_MAX in *. lia. }
  rewrite (to_int_small _ Hi). split; [reflexivity |].
  apply to_int_small. unfold is_int, INT_MIN, INT_MAX in *. lia.
Qed.

Lemma vector_index_front (idx : Z) :
  0 <= idx < vector_size v ->
  vector_index what v idx = vector_at v idx.
Proof.
  intros H. unfold vector_index, CHECK_LT, CHECK_GE.
  destruct vector_size_casts as [-> ->].
  destruct (Z.ltb_spec idx (vector_size v)); [| lia].
  destruct (Z.geb_spec idx (- vector_size v)); [| lia].
  cbn [bindO]. destruct (Z.geb_spec idx 0); [| lia].
  rewrite to_size_t_small; [reflexivity |].
  unfold INT_MAX in size_fits.
  change (2 ^ 31) with 2147483648 in size_fits.
  change (2 ^ 64) with 18446744073709551616. lia.
Qed.

Lemma vector_index_tail (idx : Z) :
  is_int idx -> - vector_size v <= idx < 0 ->
  vector_index what v idx = vector_at v (idx + vector_size v).
Proof.
  intros Hint H. unfold vector_index, CHECK_LT, CHECK_GE.
  destruct vector_size_casts as [-> ->].
  destruct (Z.ltb_spec idx (vector_size v)); [| lia].
  destruct (Z.geb_spec idx (- vector_size v)); [| lia].
  cbn [bindO]. destruct (Z.geb_spec idx 0); [lia |].
  rewrite size_t_tail_index; [reflexivity | | lia | exact size_fits].
  unfold is_int in Hint. lia.
Qed.

Lemma vector_at_in_range (k : Z) :
  0 <= k < vector_size v ->
  exists t, vector_at v k = Ok t /\ v !! Z.to_nat k = Some t.
Proof.
  intros H. unfold vector_at.
  destruct (v !! Z.to_nat k) as [t |] eqn:E.
  - exists t. split; reflexivity.
  - apply lookup_ge_None in E. unfold vector_size in H. lia.
Qed.

Lemma vector_index_fatal (idx : Z) :
  ~ (- vector_size v <= idx < vector_size v) ->
  exists diag, vector_index what v idx = Fatal diag.
Proof.
  intros H. unfold vector_index, CHECK_LT, CHECK_GE.
  destruct vector_size_casts as [-> ->].
  destruct (Z.ltb_spec idx (vector_size v)); cbn [bindO].
  - destruct (Z.geb_spec idx (- vector_size v)); cbn [bindO]; [lia |].
    eexists. reflexivity.
  - eexists. reflexivity.
Qed.

End VectorIndex.

Lemma vector_index_spec (what : string) (v : list TensorRef) (idx : Z) :
  vector_size v <= INT_MAX -> is_int idx ->
  (- vector_size v <= idx < vector_size v ->
     exists t, vector_index what v idx = Ok t /\
       v !! Z.to_nat (if idx <? 0 then idx + vector_size v else idx) = Some t) /\
  (~ (- vector_size v <= idx < vector_size v) ->
     exists diag, vector_index what v idx = Fatal diag) /\
  (- vector_size v <= idx < 0 ->
     vector_index what v idx = vector_index what v (idx + vector_size v)).
Proof.
  intros Hsize Hint. split; [| split].
  - intros Hin. destruct (Z.ltb_spec idx 0) as [Hneg | Hpos].
    + rewrite vector_index_tail by (assumption || lia).
      apply vector_at_in_range. lia.
    + rewrite vector_index_front by (assumption || lia).
      apply vector_at_in_range. lia.
  - apply vector_index_fatal. exact Hsize.
  - intros Hneg.
    rewrite vector_index_tail by (assumption || lia).
    rewrite vector_index_front by (assumption || lia).
    reflexivity.
Qed.

(** C4.  With [n] inputs (resp. outputs) and [idx] an [int], [input(idx)]
    (resp. [output(idx)]) returns a tensor exactly when [-n <= idx < n] and
    is fatal otherwise; a negative [idx] returns what [idx + n] returns, the
    element [idx + n] of the vector.  The sizes are those of a descriptor's
    repeated fields, which an [int] holds. *)
Theorem input_output_index (op : OperatorBase) (idx : Z) :
  is_int idx ->
  InputSize op <= INT_MAX ->
  OutputSize op <= INT_MAX ->
  ((- InputSize op <= idx < InputSize op ->
      exists t, input op idx = Ok t /\
        inputs_ op !! Z.to_nat (if idx <? 0 then idx + InputSize op else idx) = Some t) /\
   (~ (- InputSize op <= idx < InputSize op) ->
      exists diag, input op idx = Fatal diag) /\
   (- InputSize op <= idx < 0 ->
      input op idx = input op (idx + InputSize op))) /\
  ((- OutputSize op <= idx < OutputSize op ->
      exists t, output op idx = Ok t /\
        outputs_ op !! Z.to_nat (if idx <? 0 then idx + OutputSize op else idx) = Some t) /\
   (~ (- OutputSize op <= idx < OutputSize op) ->
      exists diag, output op idx = Fatal diag) /\
   (- OutputSize op <= idx < 0 ->
      output op idx = output op (idx + OutputSize op))).
Proof.
  intros Hint Hin Hout. split.
  - exact (vector_index_spec "inputs_" (inputs_ op) idx Hin Hint).
  - exact (vector_index_spec "outputs_" (outputs_ op) idx Hout Hint).
Qed.

Lemma input_output_index_witness :
  input add_base (-1) = input add_base 2 /\
  (exists diag, output add_base (-2) = Fatal diag).
Proof.
  assert (Hint1 : is_int (-1)) by (unfold is_int, INT_MIN, INT_MAX; lia).
  assert (Hint2 : is_int (-2)) by (unfold is_int, INT_MIN, INT_MAX; lia).
  assert (Hin : InputSize add_base <= INT_MAX) by (vm_compute; discriminate).
  assert (Hout : OutputSize add_base <= INT_MAX) by (vm_compute; discriminate).
  split.
  - destruct (input_output_index add_base (-1) Hint1 Hin Hout) as [[_ [_ H]] _].
    apply H. vm_compute. split; discriminate || reflexivity.
  - destruct (input_output_index add_base (-2) Hint2 Hin Hout) as [_ [_ [H _]]].
    apply H. vm_compute. intros [H1 _]. apply H1. reflexivity.
Defined.

(** ** The rank gate *)

Lemma rank_listed_elem (cur_rank : Z) (allow_ranks : list Z) :
  rank_listed cur_rank allow_ranks = true <-> cur_rank ∈ allow_ranks.
Proof.
  induction allow_ranks as [| r rest IH]; cbn [rank_listed].
  - split; [discriminate | intros H; inversion H].
  - destruct (Z.eqb_spec cur_rank r) as [-> | Hne].
    + split; [intros _; left | reflexivity].
    + rewrite IH. split.
      * intros H. right. exact H.
      * intros H. inversion H; subst; [contradiction | assumption].
Qed.

Lemma coerce_ints_fit (l : list Z) : Forall is_int l -> coerce_ints l = Ok l.
Proof.
  induction 1 as [| z l Hz _ IH]; cbn [coerce_ints]; [reflexivity |].
  unfold coerce_int. destruct Hz as [Hlo Hhi].
  destruct (Z.leb_spec INT_MIN z); [| lia].
  destruct (Z.leb_spec z INT_MAX); [| lia].
  cbn. rewrite IH. reflexivity.
Qed.

Lemma GetRepeatedArg_int_stored (op : OperatorBase) (name : string)
      (i : nat) (a : Argument) (l : list Z) :
  args_ op !! name = Some (Some i) ->
  def_arg (op_def_ op) !! i = Some a ->
  arg_value a = ArgInts l ->
  Forall is_int l ->
  GetRepeatedArg_int op name = Ok l.
Proof.
  intros Hm Hi Hv Hl. unfold GetRepeatedArg_int, deref_arg.
  rewrite Hm, Hi. cbn [bindO]. rewrite Hv. apply coerce_ints_fit, Hl.
Qed.

(** C3.  Without MPI the rank check is true.  With MPI it is true when
    "mpi_rank" is absent, true when the list read from it is empty, true
    when the current rank is in the list, and false when the list is
    non-empty and the current rank is not in it. *)
Theorem rank_gate (env : Env) (op : OperatorBase) :
  (WITH_MPI env = false -> _MPICheck env op = Ok true) /\
  (WITH_MPI env = true ->
     (args_ op !! "mpi_rank" = None -> _MPICheck env op = Ok true) /\
     (forall allow_ranks : list Z,
        GetRepeatedArg_int op "mpi_rank" = Ok allow_ranks ->
        (allow_ranks = [] -> _MPICheck env op = Ok true) /\
        (MPI_Comm_rank env ∈ allow_ranks -> _MPICheck env op = Ok true) /\
        (allow_ranks <> [] -> MPI_Comm_rank env ∉ allow_ranks ->
           _MPICheck env op = Ok false))).
Proof.
  unfold _MPICheck. split.
  - intros ->. reflexivity.
  - intros ->. cbn [negb]. split.
    + intros Habs. unfold GetRepeatedArg_int. rewrite Habs. reflexivity.
    + intros allow_ranks ->. cbn [bindO]. split; [| split].
      * intros ->. reflexivity.
      * intros Hin. destruct allow_ranks as [| r rest]; [reflexivity |].
        f_equal. apply rank_listed_elem, Hin.
      * intros Hne Hout. destruct allow_ranks as [| r rest]; [contradiction |].
        f_equal. apply not_true_is_false. intros H.
        apply Hout, rank_listed_elem, H.
Qed.

Lemma rank_gate_witness :
  _MPICheck {| WITH_MPI := true; MPI_Comm_rank := 1 |} add_base = Ok false /\
  _MPICheck {| WITH_MPI := true; MPI_Comm_rank := 2 |} add_base = Ok true /\
  _MPICheck {| WITH_MPI := false; MPI_Comm_rank := 1 |} add_base = Ok true.
Proof.
  assert (Hread : GetRepeatedArg_int add_base "mpi_rank" = Ok [0; 2])
    by reflexivity.
  split; [| split].
  - destruct (rank_gate {| WITH_MPI := true; MPI_Comm_rank := 1 |} add_base)
      as [_ H].
    destruct (H eq_refl) as [_ H'].
    destruct (H' [0; 2] Hread) as [_ [_ Hout]].
    apply Hout; [discriminate |].
    cbn. intros Hin. apply rank_listed_elem in Hin. discriminate Hin.
  - destruct (rank_gate {| WITH_MPI := true; MPI_Comm_rank := 2 |} add_base)
      as [_ H].
    destruct (H eq_refl) as [_ H'].
    destruct (H' [0; 2] Hread) as [_ [Hin _]].
    apply Hin. cbn. apply rank_listed_elem. reflexivity.
  - destruct (rank_gate {| WITH_MPI := false; MPI_Comm_rank := 1 |} add_base)
      as [H _].
    apply H. reflexivity.
Defined.

(** ** The argument map *)

Lemma with_args_same (op : OperatorBase) : with_args op (args_ op) = op.
Proof. destruct op. reflexivity. Qed.

Lemma build_args_fresh (l : list Argument) :
  forall (i : nat) (m m' : gmap string (option nat)),
    build_args l i m = Ok m' ->
    forall a, a ∈ l -> m !! arg_name a = None.
Proof.
  induction l as [| a0 l IH]; intros i m m' Hb a Ha.
  - inversion Ha.
  - cbn [build_args] in Hb.
    destruct (m !! arg_name a0) eqn:E0; [discriminate |].
    inversion Ha as [| ? ? ? Hin]; subst; [exact E0 |].
    specialize (IH _ _ _ Hb a Hin).
    apply lookup_insert_None in IH. apply IH.
Qed.

Lemma build_args_frame (l : list Argument) :
  forall (i : nat) (m m' : gmap string (option nat)) (name : string),
    build_args l i m = Ok m' ->
    (forall a, a ∈ l -> arg_name a <> name) ->
    m' !! name = m !! name.
Proof.
  induction l as [| a0 l IH]; intros i m m' name Hb Hno.
  - cbn in Hb. inversion Hb. reflexivity.
  - cbn [build_args] in Hb.
    destruct (m !! arg_name a0) eqn:E0; [discriminate |].
    rewrite (IH _ _ _ name Hb).
    + apply lookup_insert_ne. apply Hno. left.
    + intros a Ha. apply Hno. right. exact Ha.
Qed.

Lemma build_args_lookup (l : list Argument) :
  forall (i : nat) (m m' : gmap string (option nat)) (j : nat) (a : Argument),
    build_args l i m = Ok m' ->
    l !! j = Some a ->
    m' !! arg_name a = Some (Some (i + j)%nat).
Proof.
  induction l as [| a0 l IH]; intros i m m' j a Hb Hj.
  - discriminate Hj.
  - cbn [build_args] in Hb.
    destruct (m !! arg_name a0) eqn:E0; [discriminate |].
    destruct j as [| j].
    + cbn in Hj. inversion Hj; subst a0.
      rewrite (build_args_frame _ _ _ _ (arg_name a) Hb).
      * rewrite lookup_insert_eq. do 2 f_equal. lia.
      * intros b Hin Heq.
        pose proof (build_args_fresh _ _ _ _ Hb b Hin) as Hf.
        rewrite Heq, lookup_insert_eq in Hf. discriminate Hf.
    + cbn in Hj. rewrite (IH _ _ _ j a Hb Hj). do 2 f_equal. lia.
Qed.

Section Construction.

Context {T : Type}.

Lemma resolve_all_CreateTensor (names : list string) :
  forall ws : @Workspace T,
    exists ws', resolve_all CreateTensor names ws = (Ok names, ws').
Proof.
  induction names as [| n rest IH]; intros ws.
  - exists ws. reflexivity.
  - cbn [resolve_all]. unfold bindM at 1, CreateTensor at 1.
    destruct (tensor_map_ ws !! n).
    + destruct (IH ws) as [ws' E]. exists ws'. unfold bindM. rewrite E. reflexivity.
    + destruct (IH (with_tensors ws (<[n := new_Tensor]> (tensor_map_ ws))))
        as [ws' E].
      exists ws'. unfold bindM. rewrite E. reflexivity.
Qed.

Lemma resolve_all_input (names : list string) :
  forall (ws ws' : @Workspace T) (ts : list string),
    resolve_all resolve_input names ws = (Ok ts, ws') -> ts = names /\ ws' = ws.
Proof.
  induction names as [| n rest IH]; intros ws ws' ts H.
  - cbn in H. inversion H. split; reflexivity.
  - cbn [resolve_all] in H. unfold bindM at 1, resolve_input at 1 in H.
    assert (Hrest : forall (o : Outcome (list string)) (w : @Workspace T),
               resolve_all resolve_input rest ws = (o, w) ->
               match o with
               | Ok a => ret (n :: a) w
               | Fatal d => (Fatal d, w)
               | Undefined u => (Undefined u, w)
               end = (Ok ts, ws') -> ts = n :: rest /\ ws' = ws).
    { intros o w E Hk. destruct o as [a | d | u]; try discriminate Hk.
      destruct (IH _ _ _ E) as [-> ->]. inversion Hk. split; reflexivity. }
    destruct (String.eqb n "ignore").
    + unfold bindM in H.
      destruct (resolve_all resolve_input rest ws) as [o w] eqn:E.
      exact (Hrest o w eq_refl H).
    + destruct (tensor_map_ ws !! n); [| discriminate H].
      unfold bindM in H.
      destruct (resolve_all resolve_input rest ws) as [o w] eqn:E.
      exact (Hrest o w eq_refl H).
Qed.

Lemma OperatorBase_ctor_fields (op_def : OperatorDef) (ws ws' : @Workspace T)
      (b : OperatorBase) :
  OperatorBase_ctor op_def ws = (Ok b, ws') ->
  op_def_ b = op_def /\
  inputs_ b = def_input op_def /\
  outputs_ b = def_output op_def /\
  build_args (def_arg op_def) 0%nat ∅ = Ok (args_ b).
Proof.
  unfold OperatorBase_ctor. unfold bindM at 1, liftO.
  destruct (build_args (def_arg op_def) 0%nat ∅) as [m | d | u];
    try discriminate.
  unfold bindM at 1.
  destruct (resolve_all resolve_input (def_input op_def) ws) as [[ins | d | u] w1] eqn:E1;
    try discriminate.
  destruct (resolve_all_input _ _ _ _ E1) as [-> ->].
  unfold bindM.
  destruct (resolve_all_CreateTensor (def_output op_def) ws) as [w2 E2].
  rewrite E2. cbn. intros H. inversion H. cbn. repeat split; reflexivity.
Qed.

End Construction.

(** C10.  [arg(name)] does not check that [name] is present.  When the map
    holds a pointer to an argument under [name], that argument is returned
    and the operator is unchanged; when [name] is absent the map gains a
    null entry for it and the null pointer is dereferenced (undefined
    behaviour, not a fatal diagnostic).  For a constructed operator the
    names present are exactly those of the descriptor's arguments. *)
Theorem arg_unchecked (op : OperatorBase) (name : string) :
  (forall (i : nat) (a : Argument),
     args_ op !! name = Some (Some i) ->
     def_arg (op_def_ op) !! i = Some a ->
     arg name op = (Ok a, op)) /\
  (args_ op !! name = None ->
     arg name op =
       (Undefined NullDereference, with_args op (<[name := None]> (args_ op)))) /\
  (forall (T : Type) (op_def : OperatorDef) (ws ws' : @Workspace T),
     OperatorBase_ctor op_def ws = (Ok op, ws') ->
     (forall a, a ∈ def_arg op_def -> arg_name a = name ->
        arg name op = (Ok a, op)) /\
     ((forall a, a ∈ def_arg op_def -> arg_name a <> name) ->
        args_ op !! name = None)).
Proof.
  assert (Hpresent : forall (i : nat) (a : Argument),
             args_ op !! name = Some (Some i) ->
             def_arg (op_def_ op) !! i = Some a ->
             arg name op = (Ok a, op)).
  { intros i a Hm Hi. unfold arg, map_subscript. rewrite Hm.
    rewrite with_args_same. unfold deref_arg. rewrite Hi. reflexivity. }
  split; [exact Hpresent | split].
  - intros Hm. unfold arg, map_subscript. rewrite Hm. reflexivity.
  - intros T op_def ws ws' Hc.
    destruct (OperatorBase_ctor_fields _ _ _ _ Hc) as (Hdef & _ & _ & Hb).
    split.
    + intros a Ha Hname.
      apply list_elem_of_lookup in Ha. destruct Ha as [j Hj].
      apply (Hpresent j a).
      * rewrite <- Hname. apply (build_args_lookup _ _ _ _ _ _ Hb Hj).
      * rewrite Hdef. exact Hj.
    + intros Hno. rewrite (build_args_frame _ _ _ _ name Hb Hno).
      apply lookup_empty.
Qed.

Lemma arg_unchecked_witness :
  arg "axis" add_base = (Ok {| arg_name := "axis"; arg_value := ArgInt 1 |}, add_base) /\
  arg "scale" add_base =
    (Undefined NullDereference,
     with_args add_base (<["scale" := None]> (args_ add_base))).
Proof.
  split.
  - destruct (arg_unchecked add_base "axis") as [H _].
    apply (H 1%nat); reflexivity.
  - destruct (arg_unchecked add_base "scale") as [_ [H _]].
    apply H. reflexivity.
Defined.

(** ** Construction of Operator<Context> *)

Section Orchestration.

Context {T : Type}.

Lemma output_wanted_spec (b : OperatorBase) :
  output_wanted b =
    Ok (negb (match outputs_ b with
              | [t] => String.eqb (tensor_name t) "ignore"
              | _ => false
              end)).
Proof.
  unfold output_wanted, OutputSize, output, vector_size.
  destruct (outputs_ b) as [| t [| t' rest]].
  - reflexivity.
  - reflexivity.
  - cbn [length].
    destruct (Z.eqb_spec (Z.of_nat (S (S (length rest)))) 1) as [H | _];
      [lia | reflexivity].
Qed.

Lemma Run_not_allowed (k : @Kernel T) (op : Operator) (w : World) :
  allow_run op = false -> Run k op w = (Ok tt, w).
Proof. unfold allow_run, Run. intros ->. reflexivity. Qed.

(** C2.  When the base is constructed and the rank gate evaluates to
    [gate], the operator is constructed with [allow_run] true exactly when
    [gate] is true and it is not the case that there is exactly one output
    and its name is "ignore".  With the output list ["ignore"],
    [allow_run] is false and [Run] changes nothing and makes no call. *)
Theorem allow_run_at_construction
        (env : Env) (op_def : OperatorDef) (ws ws1 : @Workspace T)
        (b : OperatorBase) (gate : bool) :
  OperatorBase_ctor op_def ws = (Ok b, ws1) ->
  _MPICheck env b = Ok gate ->
  exists op : Operator,
    Operator_ctor env op_def ws = (Ok op, ws1) /\
    base op = b /\
    (allow_run op = true <->
       gate = true /\
       ~ (exists t, outputs_ (base op) = [t] /\ tensor_name t = "ignore")) /\
    (def_output op_def = ["ignore"] ->
       allow_run op = false /\
       forall (k : @Kernel T) (w : World), Run k op w = (Ok tt, w)).
Proof.
  intros Hb Hg.
  destruct (OperatorBase_ctor_fields _ _ _ _ Hb) as (_ & _ & Hout & _).
  unfold Operator_ctor. unfold bindM at 1. rewrite Hb.
  unfold bindM at 1, liftO at 1. rewrite Hg.
  unfold bindM, liftO. rewrite output_wanted_spec. unfold ret.
  eexists. split; [reflexivity |]. cbn [base allow_run allow_run_].
  split; [reflexivity |].
  assert (Hflag : forall t, outputs_ b = [t] ->
             String.eqb (tensor_name t) "ignore" = true <-> tensor_name t = "ignore").
  { intros t _. apply String.eqb_eq. }
  split; [split |].
  - intros H. apply andb_prop in H. destruct H as [H1 H2]. split.
    + exact H1.
    + intros (t & Ht & Hn). rewrite Ht in H2.
      apply String.eqb_eq in Hn. rewrite Hn in H2. discriminate H2.
  - intros [-> Hno]. cbn [andb].
    destruct (outputs_ b) as [| t [| t' rest]]; try reflexivity.
    destruct (String.eqb (tensor_name t) "ignore") eqn:E; [| reflexivity].
    exfalso. apply Hno. exists t. split; [reflexivity |].
    apply String.eqb_eq, E.
  - intros Hign. rewrite Hout, Hign. cbn.
    assert (Hfalse : gate && false = false) by apply andb_false_r.
    split; [exact Hfalse |].
    intros k w. apply Run_not_allowed. exact Hfalse.
Qed.

End Orchestration.

Lemma allow_run_at_construction_witness :
  exists op : Operator,
    Operator_ctor no_mpi ignore_def ws_ab =
      (Ok op, with_tensors ws_ab (<["ignore" := new_Tensor]> (tensor_map_ ws_ab))) /\
    allow_run op = false /\
    Run idle_kernel op {| workspace := ws_ab; calls := [] |} =
      (Ok tt, {| workspace := ws_ab; calls := [] |}).
Proof.
  destruct (allow_run_at_construction no_mpi ignore_def ws_ab
              (with_tensors ws_ab (<["ignore" := new_Tensor]> (tensor_map_ ws_ab)))
              {| phase_ := "TEST"; args_ := ∅; inputs_ := ["a"; "b"];
                 outputs_ := ["ignore"]; op_def_ := ignore_def |}
              true eq_refl eq_refl)
    as (op & Hc & _ & _ & Hign).
  exists op. destruct (Hign eq_refl) as [Hallow Hrun].
  split; [exact Hc | split; [exact Hallow | apply Hrun]].
Defined.

(** ** The calls made by MemorySwitch and Run *)

Create HintDb calls discriminated.

Section Calls.

Context {T : Type}.

Lemma add_calls_nil (w : @World T) : add_calls w [] = w.
Proof. destruct w. unfold add_calls. cbn. rewrite app_nil_r. reflexivity. Qed.

Lemma add_calls_app (w : @World T) (l1 l2 : list Call) :
  add_calls (add_calls w l1) l2 = add_calls w (l1 ++ l2).
Proof. unfold add_calls. cbn. rewrite app_assoc. reflexivity. Qed.

Lemma log_add (c : Call) (w : @World T) : log c w = (Ok tt, add_calls w [c]).
Proof. reflexivity. Qed.

Lemma on_workspace_result {A : Type} (c : M Workspace A) (w : @World T)
      (o : Outcome A) (ws : Workspace) :
  c (workspace w) = (o, ws) ->
  on_workspace c w = (o, {| workspace := ws; calls := calls w |}).
Proof. intros H. unfold on_workspace. rewrite H. reflexivity. Qed.

(** One of the two loops of [MemorySwitch], over a vector [v] read through
    [get]. *)
Lemma switch_loop (get : Z -> Outcome string) (v : list string) :
  forall (s : nat) (w : @World T),
    (forall (i : nat) (t : string),
        v !! i = Some t -> get (Z.of_nat (s + i)) = Ok t) ->
    for_each (seq s (length v))
      (fun i =>
         let! t := liftO (get i) in
         if negb (String.eqb (tensor_name t) "ignore") then
           let! t' := liftO (get i) in
           log (Tensor_SwitchToDevice t')
         else ret tt) w
    = (Ok tt, add_calls w (map Tensor_SwitchToDevice (List.filter named v))).
Proof.
  induction v as [| t v IH]; intros s w Hget.
  - cbn. rewrite add_calls_nil. reflexivity.
  - cbn [length seq for_each].
    assert (Ht : get (Z.of_nat s) = Ok t).
    { rewrite <- (Nat.add_0_r s). apply Hget. reflexivity. }
    assert (Hrest : forall (i : nat) (t0 : string),
               v !! i = Some t0 -> get (Z.of_nat (S s + i)) = Ok t0).
    { intros i t0 Hi. replace (S s + i)%nat with (s + S i)%nat by lia.
      apply Hget. exact Hi. }
    cbn [List.filter]. unfold named at 1.
    destruct (negb (String.eqb (tensor_name t) "ignore")) eqn:E.
    + rewrite (bindM_ok _ _ w (add_calls w [Tensor_SwitchToDevice t]) tt).
      * rewrite (IH (S s) _ Hrest), add_calls_app. reflexivity.
      * cbv beta. unfold bindM, liftO. rewrite Ht, E. reflexivity.
    + rewrite (bindM_ok _ _ w w tt).
      * apply (IH (S s) _ Hrest).
      * cbv beta. unfold bindM, liftO. rewrite Ht, E. reflexivity.
Qed.

Lemma vector_index_lookup (what : string) (v : list string) (i : nat) (t : string) :
  vector_size v <= INT_MAX -> v !! i = Some t ->
  vector_index what v (Z.of_nat (0 + i)) = Ok t.
Proof.
  intros Hsize Hi. cbn [Nat.add].
  assert (Hlt : (i < length v)%nat) by (eapply lookup_lt_Some; exact Hi).
  rewrite vector_index_front; [| exact Hsize | unfold vector_size; lia].
  unfold vector_at. rewrite Nat2Z.id, Hi. reflexivity.
Qed.

Lemma MemorySwitch_calls (op : Operator) (w : @World T) :
  InputSize (base op) <= INT_MAX ->
  OutputSize (base op) <= INT_MAX ->
  MemorySwitch op w = (Ok tt, add_calls w (Call_MemorySwitch :: switched op)).
Proof.
  intros Hin Hout. unfold MemorySwitch.
  rewrite (bindM_ok _ _ w (add_calls w [Call_MemorySwitch]) tt (log_add _ _)).
  unfold for_int, InputSize, OutputSize, vector_size. rewrite !Nat2Z.id.
  rewrite (bindM_ok _ _ _ _ tt
             (switch_loop (input (base op)) (inputs_ (base op)) 0 _
                (fun i t Hi => vector_index_lookup _ _ i t Hin Hi))).
  rewrite (switch_loop (output (base op)) (outputs_ (base op)) 0 _
             (fun i t Hi => vector_index_lookup _ _ i t Hout Hi)).
  rewrite !add_calls_app. unfold switched.
  rewrite List.filter_app, map_app. reflexivity.
Qed.

Lemma emits_nothing (P : Call -> Prop) {A : Type} (c : M (@World T) A) :
  (forall w o w', c w = (o, w') -> calls w' = calls w) -> emits P c.
Proof.
  intros H w o w' E. exists []. rewrite app_nil_r.
  split; [exact (H _ _ _ E) | constructor].
Qed.

Lemma emits_ret (P : Call -> Prop) {A : Type} (a : A) :
  emits P (ret a : M (@World T) A).
Proof. apply emits_nothing. intros w o w' E. inversion E. reflexivity. Qed.

Lemma emits_liftO (P : Call -> Prop) {A : Type} (o : Outcome A) :
  emits P (liftO o : M (@World T) A).
Proof. apply emits_nothing. intros w o' w' E. inversion E. reflexivity. Qed.

Lemma emits_on_workspace (P : Call -> Prop) {A : Type}
      (c : M (@Workspace T) A) :
  emits P (on_workspace c).
Proof.
  apply emits_nothing. intros w o w' E. unfold on_workspace in E.
  destruct (c (workspace w)). inversion E. reflexivity.
Qed.

Lemma emits_log (P : Call -> Prop) (c : Call) :
  P c -> emits P (log c : M (@World T) unit).
Proof.
  intros Hc w o w' E. inversion E. exists [c]. split; [reflexivity |].
  constructor; [exact Hc | constructor].
Qed.

Lemma emits_bind (P : Call -> Prop) {A B : Type}
      (c : M (@World T) A) (k : A -> M World B) :
  emits P c -> (forall a, emits P (k a)) -> emits P (bindM c k).
Proof.
  intros Hc Hk w o w' E. unfold bindM in E.
  destruct (c w) as [o1 w1] eqn:E1.
  destruct (Hc _ _ _ E1) as (new1 & Hn1 & HP1).
  destruct o1 as [a | d | u].
  - destruct (Hk a _ _ _ E) as (new2 & Hn2 & HP2).
    exists (new1 ++ new2). rewrite Hn2, Hn1, app_assoc.
    split; [reflexivity | apply Forall_app; split; assumption].
  - inversion E; subst. exists new1. split; assumption.
  - inversion E; subst. exists new1. split; assumption.
Qed.

Lemma emits_bind_liftO (P : Call -> Prop) {A B : Type}
      (o : Outcome A) (k : A -> M (@World T) B) :
  (forall a, o = Ok a -> emits P (k a)) -> emits P (bindM (liftO o) k).
Proof.
  intros Hk. destruct o as [a | d | u].
  - intros w o' w' E. apply (Hk a eq_refl w o' w'). exact E.
  - apply emits_nothing. intros w o' w' E. inversion E. reflexivity.
  - apply emits_nothing. intros w o' w' E. inversion E. reflexivity.
Qed.

Lemma emits_for_each (P : Call -> Prop) (l : list nat) (body : Z -> M (@World T) unit) :
  (forall i, emits P (body i)) -> emits P (for_each l body).
Proof.
  intros Hb. induction l as [| i l IH]; cbn [for_each].
  - apply emits_ret.
  - apply emits_bind; [apply Hb | intros _; exact IH].
Qed.

Lemma n_finish_app (l1 l2 : list Call) :
  n_finish (l1 ++ l2) = (n_finish l1 + n_finish l2)%nat.
Proof. unfold n_finish. rewrite List.filter_app, length_app. reflexivity. Qed.

Lemma n_finish_quiet (l : list Call) : Forall not_finish l -> n_finish l = 0%nat.
Proof.
  unfold n_finish. induction 1 as [| c l Hc _ IH]; [reflexivity |].
  cbn [List.filter]. rewrite Hc. exact IH.
Qed.

Lemma switch_body_emits (P : Call -> Prop) (get : Z -> Outcome string) (i : Z) :
  (forall t, get i = Ok t -> negb (String.eqb (tensor_name t) "ignore") = true ->
             P (Tensor_SwitchToDevice t)) ->
  emits P (let! t := liftO (get i) in
           if negb (String.eqb (tensor_name t) "ignore") then
             let! t' := liftO (get i) in
             log (Tensor_SwitchToDevice t')
           else (ret tt : M (@World T) unit)).
Proof.
  intros HP. apply emits_bind_liftO. intros t Ht.
  destruct (negb (String.eqb (tensor_name t) "ignore")) eqn:E.
  - apply emits_bind_liftO. intros t' Ht'.
    rewrite Ht in Ht'. inversion Ht'; subst t'.
    apply emits_log, HP; assumption.
  - apply emits_ret.
Qed.

Lemma MemorySwitch_emits (P : Call -> Prop) (op : Operator) :
  P Call_MemorySwitch ->
  (forall t, named t = true -> P (Tensor_SwitchToDevice t)) ->
  emits P (MemorySwitch op : M (@World T) unit).
Proof.
  intros Hm Ht. unfold MemorySwitch.
  apply emits_bind; [apply emits_log, Hm | intros _].
  apply emits_bind; [| intros _].
  - apply emits_for_each. intros i. apply switch_body_emits.
    intros t _ E. apply Ht, E.
  - apply emits_for_each. intros i. apply switch_body_emits.
    intros t _ E. apply Ht, E.
Qed.

#[local] Hint Resolve emits_ret emits_liftO emits_on_workspace emits_log
  MemorySwitch_emits : calls.

(** Splits a goal about a sequence of calls into one goal per call. *)
Ltac split_calls :=
  repeat lazymatch goal with
         | |- emits _ (bindM _ _) => apply emits_bind; [| intros _]
         end.

Lemma Run_emits (P : Call -> Prop) (k : @Kernel T) (op : Operator) :
  P Ctx_SwitchToDevice -> P Call_ShareBeforeRun -> P Call_MemorySwitch ->
  (forall t, named t = true -> P (Tensor_SwitchToDevice t)) ->
  P Call_RunOnDevice -> P Call_ClearAfterRun -> P Ctx_FinishDeviceCompution ->
  emits P (Run k op).
Proof.
  intros H1 H2 H3 H4 H5 H6 H7. unfold Run.
  destruct (negb (allow_run_ op)); [auto with calls |].
  destruct (negb (def_debug_mode (op_def_ (base op))));
    split_calls; auto with calls.
Qed.

Lemma hook_phase (c : Call) (h : M Workspace unit) (w : @World T)
      (o : Outcome unit) (ws : Workspace) :
  h (workspace w) = (o, ws) ->
  bindM (log c) (fun _ => on_workspace h) w =
    (o, {| workspace := ws; calls := calls w ++ [c] |}).
Proof.
  intros H. step_with (log_add c w).
  apply (on_workspace_result h (add_calls w [c]) o ws). exact H.
Qed.

Lemma switched_elem (op : Operator) (t : string) :
  Tensor_SwitchToDevice t ∈ switched op <->
  t ∈ inputs_ (base op) ++ outputs_ (base op) /\ tensor_name t <> "ignore".
Proof.
  unfold switched. rewrite list_elem_of_fmap. split.
  - intros (t' & Heq & Hin). inversion Heq; subst t'.
    apply list_elem_of_In, List.filter_In in Hin. destruct Hin as [Hin Hn].
    split; [apply list_elem_of_In, Hin |].
    unfold named in Hn. apply negb_true_iff in Hn.
    intros Heq'. apply String.eqb_eq in Heq'. congruence.
  - intros [Hin Hne]. exists t. split; [reflexivity |].
    apply list_elem_of_In, List.filter_In. split; [apply list_elem_of_In, Hin |].
    unfold named. apply negb_true_iff.
    destruct (String.eqb_spec (tensor_name t) "ignore"); [contradiction | reflexivity].
Qed.

Lemma named_spares (t : string) :
  named t = true -> spares_ignore (Tensor_SwitchToDevice t).
Proof.
  intros Hn t' Heq. inversion Heq; subst t'. unfold named in Hn.
  apply negb_true_iff in Hn. intros Heq'. apply String.eqb_eq in Heq'. congruence.
Qed.

(** C9.  [MemorySwitch] asks exactly the inputs and outputs whose name is
    not "ignore" to switch to the device, inputs first, in order; and among
    the calls any [Run] adds, whatever its outcome, none asks a tensor named
    "ignore" to switch. *)
Theorem MemorySwitch_spares_ignore (k : @Kernel T) (op : Operator) :
  (InputSize (base op) <= INT_MAX -> OutputSize (base op) <= INT_MAX ->
   forall w : @World T,
     MemorySwitch op w = (Ok tt, add_calls w (Call_MemorySwitch :: switched op))) /\
  (forall t : TensorRef,
     Tensor_SwitchToDevice t ∈ switched op <->
     t ∈ inputs_ (base op) ++ outputs_ (base op) /\ tensor_name t <> "ignore") /\
  (forall (w : World) (o : Outcome unit) (w' : World),
     Run k op w = (o, w') ->
     exists new : list Call,
       calls w' = calls w ++ new /\
       forall t : TensorRef,
         Tensor_SwitchToDevice t ∈ new -> tensor_name t <> "ignore").
Proof.
  split; [| split].
  - intros Hin Hout w. apply MemorySwitch_calls; assumption.
  - apply switched_elem.
  - intros w o w' E.
    assert (Hother : forall c, (forall t, c <> Tensor_SwitchToDevice t) ->
                               spares_ignore c).
    { intros c Hc t Heq. exfalso. exact (Hc t Heq). }
    destruct (Run_emits spares_ignore k op) with (w := w) (o := o) (w' := w')
      as (new & Hnew & HP);
      try (apply Hother; intros t; discriminate);
      [apply named_spares | exact E |].
    exists new. split; [exact Hnew |].
    intros t Hin. rewrite Forall_forall in HP.
    exact (HP _ Hin t eq_refl).
Qed.

(** C1.  With [allow_run] false, [Run] returns at once: no call, no change.
    With [allow_run] true and the hooks and the kernel returning, the calls
    of one [Run] are, in this order: the context's [SwitchToDevice];
    [ShareBeforeRun] (outside debug mode only); [MemorySwitch] with its
    migration requests; [RunOnDevice]; [ClearAfterRun] (outside debug mode
    only); the context's [FinishDeviceCompution]. *)
Theorem Run_order (k : @Kernel T) (op : Operator) (w : World) :
  (allow_run op = false -> Run k op w = (Ok tt, w)) /\
  (allow_run op = true ->
   InputSize (base op) <= INT_MAX -> OutputSize (base op) <= INT_MAX ->
   (def_debug_mode (op_def (base op)) = false ->
    forall ws1 ws2 ws3 : Workspace,
      ShareBeforeRun k op (workspace w) = (Ok tt, ws1) ->
      RunOnDevice k op ws1 = (Ok tt, ws2) ->
      ClearAfterRun k op ws2 = (Ok tt, ws3) ->
      Run k op w =
        (Ok tt,
         {| workspace := ws3;
            calls := calls w
                     ++ [Ctx_SwitchToDevice; Call_ShareBeforeRun; Call_MemorySwitch]
                     ++ switched op
                     ++ [Call_RunOnDevice; Call_ClearAfterRun;
                         Ctx_FinishDeviceCompution] |})) /\
   (def_debug_mode (op_def (base op)) = true ->
    forall ws2 : Workspace,
      RunOnDevice k op (workspace w) = (Ok tt, ws2) ->
      Run k op w =
        (Ok tt,
         {| workspace := ws2;
            calls := calls w
                     ++ [Ctx_SwitchToDevice; Call_MemorySwitch]
                     ++ switched op
                     ++ [Call_RunOnDevice; Ctx_FinishDeviceCompution] |}))).
Proof.
  split; [apply Run_not_allowed |].
  unfold allow_run, op_def. intros Hallow Hin Hout. split.
  - intros Hdebug ws1 ws2 ws3 Hshare Hkernel Hclear.
    unfold Run. rewrite Hallow, Hdebug. cbn [negb].
    step_with (log_add Ctx_SwitchToDevice w).
    set (w1 := add_calls w [Ctx_SwitchToDevice]).
    step_with (hook_phase Call_ShareBeforeRun (ShareBeforeRun k op) w1
                          (Ok tt) ws1 Hshare).
    set (w2 := {| workspace := ws1; calls := calls w1 ++ [Call_ShareBeforeRun] |}).
    step_with (MemorySwitch_calls op w2 Hin Hout).
    set (w3 := add_calls w2 (Call_MemorySwitch :: switched op)).
    step_with (hook_phase Call_RunOnDevice (RunOnDevice k op) w3
                          (Ok tt) ws2 Hkernel).
    set (w4 := {| workspace := ws2; calls := calls w3 ++ [Call_RunOnDevice] |}).
    step_with (hook_phase Call_ClearAfterRun (ClearAfterRun k op) w4
                          (Ok tt) ws3 Hclear).
    rewrite log_add. unfold add_calls, w4, w3, w2, w1, add_calls.
    cbn [workspace calls]. rewrite <- !app_assoc. reflexivity.
  - intros Hdebug ws2 Hkernel.
    unfold Run. rewrite Hallow, Hdebug. cbn [negb].
    step_with (log_add Ctx_SwitchToDevice w).
    set (w1 := add_calls w [Ctx_SwitchToDevice]).
    rewrite (bindM_ok (ret tt) _ w1 w1 tt eq_refl).
    step_with (MemorySwitch_calls op w1 Hin Hout).
    set (w3 := add_calls w1 (Call_MemorySwitch :: switched op)).
    step_with (hook_phase Call_RunOnDevice (RunOnDevice k op) w3
                          (Ok tt) ws2 Hkernel).
    set (w4 := {| workspace := ws2; calls := calls w3 ++ [Call_RunOnDevice] |}).
    rewrite (bindM_ok (ret tt) _ w4 w4 tt eq_refl).
    rewrite log_add. unfold add_calls, w4, w3, w1, add_calls.
    cbn [workspace calls]. rewrite <- !app_assoc. reflexivity.
Qed.

Lemma finishes_log :
  finishes (log Ctx_FinishDeviceCompution : M (@World T) unit).
Proof.
  intros w o w' E. inversion E. exists [Ctx_FinishDeviceCompution].
  split; [reflexivity | split].
  - intros _. exists []. split; reflexivity.
  - intros H. contradiction.
Qed.

Lemma finishes_bind {A : Type} (c : M (@World T) A) (k : M World unit) :
  emits not_finish c -> finishes k -> finishes (bindM c (fun _ => k)).
Proof.
  intros Hc Hk w o w' E. unfold bindM in E.
  destruct (c w) as [o1 w1] eqn:E1.
  destruct (Hc _ _ _ E1) as (new1 & Hn1 & HP1).
  apply n_finish_quiet in HP1.
  destruct o1 as [a | d | u].
  - destruct (Hk _ _ _ E) as (new2 & Hn2 & Hok & Hbad).
    exists (new1 ++ new2). rewrite Hn2, Hn1, app_assoc.
    split; [reflexivity | split].
    + intros Ho. destruct (Hok Ho) as (before & -> & Hb).
      exists (new1 ++ before). rewrite app_assoc. split; [reflexivity |].
      rewrite n_finish_app, HP1, Hb. reflexivity.
    + intros Ho. rewrite n_finish_app, HP1, (Hbad Ho). reflexivity.
  - inversion E; subst. exists new1. split; [exact Hn1 | split].
    + discriminate.
    + intros _. exact HP1.
  - inversion E; subst. exists new1. split; [exact Hn1 | split].
    + discriminate.
    + intros _. exact HP1.
Qed.

Lemma hook_emits (P : Call -> Prop) (c : Call) (h : M Workspace unit) :
  P c -> emits P (bindM (log c) (fun _ => on_workspace h) : M (@World T) unit).
Proof.
  intros Hc. apply emits_bind; [apply emits_log, Hc | intros _].
  apply emits_on_workspace.
Qed.

Lemma Run_finishes (k : @Kernel T) (op : Operator) :
  allow_run op = true -> finishes (Run k op).
Proof.
  unfold allow_run, Run. intros ->. cbn [negb].
  apply finishes_bind; [apply emits_log; reflexivity |].
  apply finishes_bind.
  { destruct (negb (def_debug_mode (op_def_ (base op))));
      [apply hook_emits; reflexivity | apply emits_ret]. }
  apply finishes_bind.
  { apply MemorySwitch_emits; [reflexivity | intros t _; reflexivity]. }
  apply finishes_bind; [apply hook_emits; reflexivity |].
  apply finishes_bind; [| apply finishes_log].
  destruct (negb (def_debug_mode (op_def_ (base op))));
    [apply hook_emits; reflexivity | apply emits_ret].
Qed.

(** C5, as the code has it.  On a permitted invocation,
    [FinishDeviceCompution] is called exactly once, as the last call, when
    [Run] returns; when a hook or the kernel raises a fatal condition [Run]
    ends there and [FinishDeviceCompution] is not called.  In particular a
    fatal [RunOnDevice] makes [Run] fatal with the same diagnostic, the
    last call being [RunOnDevice]. *)
Theorem Run_finish_when_returning (k : @Kernel T) (op : Operator) (w : World) :
  allow_run op = true ->
  (forall (o : Outcome unit) (w' : World),
     Run k op w = (o, w') ->
     exists new : list Call,
       calls w' = calls w ++ new /\
       (o = Ok tt ->
          n_finish new = 1%nat /\ last new = Some Ctx_FinishDeviceCompution) /\
       (o <> Ok tt -> n_finish new = 0%nat)) /\
  (InputSize (base op) <= INT_MAX -> OutputSize (base op) <= INT_MAX ->
   forall (ws1 ws2 : Workspace) (d : string),
     (if def_debug_mode (op_def (base op)) then ws1 = workspace w
      else ShareBeforeRun k op (workspace w) = (Ok tt, ws1)) ->
     RunOnDevice k op ws1 = (Fatal d, ws2) ->
     exists new : list Call,
       Run k op w = (Fatal d, {| workspace := ws2; calls := calls w ++ new |}) /\
       n_finish new = 0%nat /\ last new = Some Call_RunOnDevice).
Proof.
  intros Hallow. split.
  - intros o w' E.
    destruct (Run_finishes k op Hallow w o w' E) as (new & Hnew & Hok & Hbad).
    exists new. split; [exact Hnew | split; [| exact Hbad]].
    intros Ho. destruct (Hok Ho) as (before & -> & Hb).
    rewrite n_finish_app, Hb, last_snoc. split; reflexivity.
  - unfold allow_run, op_def in *. intros Hin Hout ws1 ws2 d Hshare Hkernel.
    unfold Run. rewrite Hallow. cbn [negb].
    step_with (log_add Ctx_SwitchToDevice w).
    set (w1 := add_calls w [Ctx_SwitchToDevice]).
    destruct (def_debug_mode (op_def_ (base op))); cbn [negb].
    + subst ws1.
      rewrite (bindM_ok (ret tt) _ w1 w1 tt eq_refl).
      step_with (MemorySwitch_calls op w1 Hin Hout).
      set (w3 := add_calls w1 (Call_MemorySwitch :: switched op)).
      stop_with (hook_phase Call_RunOnDevice (RunOnDevice k op) w3
                            (Fatal d) ws2 Hkernel).
      exists ([Ctx_SwitchToDevice; Call_MemorySwitch] ++ switched op
              ++ [Call_RunOnDevice]).
      split; [| split].
      * unfold w3, w1, add_calls. cbn [workspace calls].
        rewrite <- !app_assoc. reflexivity.
      * rewrite !n_finish_app. cbn.
        rewrite n_finish_quiet; [reflexivity |].
        unfold switched. apply Forall_fmap, Forall_forall. reflexivity.
      * rewrite !app_assoc. apply last_snoc.
    + step_with (hook_phase Call_ShareBeforeRun (ShareBeforeRun k op) w1
                            (Ok tt) ws1 Hshare).
      set (w2 := {| workspace := ws1; calls := calls w1 ++ [Call_ShareBeforeRun] |}).
      step_with (MemorySwitch_calls op w2 Hin Hout).
      set (w3 := add_calls w2 (Call_MemorySwitch :: switched op)).
      stop_with (hook_phase Call_RunOnDevice (RunOnDevice k op) w3
                            (Fatal d) ws2 Hkernel).
      exists ([Ctx_SwitchToDevice; Call_ShareBeforeRun; Call_MemorySwitch]
              ++ switched op ++ [Call_RunOnDevice]).
      split; [| split].
      * unfold w3, w2, w1, add_calls. cbn [workspace calls].
        rewrite <- !app_assoc. reflexivity.
      * rewrite !n_finish_app. cbn.
        rewrite n_finish_quiet; [reflexivity |].
        unfold switched. apply Forall_fmap, Forall_forall. reflexivity.
      * rewrite !app_assoc. apply last_snoc.
Qed.

End Calls.

Lemma add_op_sizes :
  InputSize (base add_op) <= INT_MAX /\ OutputSize (base add_op) <= INT_MAX.
Proof. split; vm_compute; discriminate. Qed.

Lemma MemorySwitch_spares_ignore_witness :
  MemorySwitch add_op world_ab =
    (Ok tt,
     add_calls world_ab
       [Call_MemorySwitch; Tensor_SwitchToDevice "a"; Tensor_SwitchToDevice "b";
        Tensor_SwitchToDevice "c"]).
Proof.
  destruct add_op_sizes as [Hin Hout].
  destruct (MemorySwitch_spares_ignore idle_kernel add_op) as [H _].
  exact (H Hin Hout world_ab).
Defined.

Lemma Run_order_witness :
  Run idle_kernel add_op world_ab =
    (Ok tt,
     {| workspace := ws_ab;
        calls := [Ctx_SwitchToDevice; Call_ShareBeforeRun; Call_MemorySwitch;
                  Tensor_SwitchToDevice "a"; Tensor_SwitchToDevice "b";
                  Tensor_SwitchToDevice "c";
                  Call_RunOnDevice; Call_ClearAfterRun;
                  Ctx_FinishDeviceCompution] |}).
Proof.
  destruct add_op_sizes as [Hin Hout].
  destruct (Run_order idle_kernel add_op world_ab) as [_ H].
  destruct (H eq_refl Hin Hout) as [Hrelease _].
  exact (Hrelease eq_refl ws_ab ws_ab ws_ab eq_refl eq_refl eq_refl).
Defined.

(** C5 as stated fails: the kernel of [failing_kernel] raises a fatal
    condition in a permitted [Run], which then ends without any call of
    [FinishDeviceCompution]. *)
Lemma Run_finish_counterexample :
  allow_run add_op = true /\
  Run failing_kernel add_op world_ab =
    (Fatal "Check failed: kernel",
     {| workspace := ws_ab;
        calls := [Ctx_SwitchToDevice; Call_ShareBeforeRun; Call_MemorySwitch;
                  Tensor_SwitchToDevice "a"; Tensor_SwitchToDevice "b";
                  Tensor_SwitchToDevice "c"; Call_RunOnDevice] |}) /\
  n_finish [Ctx_SwitchToDevice; Call_ShareBeforeRun; Call_MemorySwitch;
            Tensor_SwitchToDevice "a"; Tensor_SwitchToDevice "b";
            Tensor_SwitchToDevice "c"; Call_RunOnDevice] = 0%nat.
Proof. repeat split. Qed.

Lemma Run_finish_when_returning_witness :
  exists new : list Call,
    Run failing_kernel add_op world_ab =
      (Fatal "Check failed: kernel",
       {| workspace := ws_ab; calls := calls world_ab ++ new |}) /\
    n_finish new = 0%nat /\ last new = Some Call_RunOnDevice.
Proof.
  destruct add_op_sizes as [Hin Hout].
  destruct (Run_finish_when_returning failing_kernel add_op world_ab eq_refl)
    as [_ H].
  exact (H Hin Hout ws_ab ws_ab "Check failed: kernel" eq_refl eq_refl).
Defined.

(** ** TENSOR_FILL *)

Lemma append_assoc (a b c : string) : (a +:+ b) +:+ c = a +:+ b +:+ c.
Proof.
  induction a as [| x a IH]; [reflexivity |].
  change (String x ((a +:+ b) +:+ c) = String x (a +:+ b +:+ c)).
  f_equal. exact IH.
Qed.

Lemma size_diag_mentions (t : string) (requested actual : Z) :
  mentions (tensor_name t) (size_diag t requested actual) /\
  mentions (pretty requested) (size_diag t requested actual) /\
  mentions (pretty actual) (size_diag t requested actual).
Proof.
  unfold mentions, size_diag.
  set (head := check_diag "count == tensor.count()" requested actual).
  split; [| split].
  - exists (head +:+ nl +:+ "model request " +:+ "Tensor("). eexists.
    rewrite !append_assoc. reflexivity.
  - exists (head +:+ nl +:+ "model request " +:+ "Tensor(" +:+ tensor_name t
            +:+ ")'s " +:+ "size is "). eexists.
    rewrite !append_assoc. reflexivity.
  - exists (head +:+ nl +:+ "model request " +:+ "Tensor(" +:+ tensor_name t
            +:+ ")'s " +:+ "size is " +:+ pretty requested +:+ nl
            +:+ "but now is "). eexists.
    rewrite !append_assoc. reflexivity.
Qed.

Section TensorFill.

Context {T : Type}.
Variable TIndex_bits : Z.

Lemma requested_count_product (shape : list Z) :
  forall c r : Z,
    requested_count TIndex_bits shape c = Ok r -> r = fold_left Z.mul shape c.
Proof.
  induction shape as [| d rest IH]; intros c r H; cbn in *.
  - inversion H. reflexivity.
  - destruct (TIndex_fits TIndex_bits (c * d)); [| discriminate H].
    apply IH, H.
Qed.

Lemma read_tensor_ok (ws : @Workspace T) (t : string) (x : Tensor) :
  tensor_map_ ws !! t = Some x -> read_tensor t ws = (Ok x, ws).
Proof. intros H. unfold read_tensor. rewrite H. reflexivity. Qed.

Lemma update_tensor_ok (ws : @Workspace T) (t : string) (x : Tensor)
      (f : Tensor -> Tensor) :
  tensor_map_ ws !! t = Some x ->
  update_tensor t f ws = (Ok tt, with_tensors ws (<[t := f x]> (tensor_map_ ws))).
Proof. intros H. unfold update_tensor. rewrite H. reflexivity. Qed.

Lemma fold_left_mul_ge (shape : list Z) :
  forall c : Z,
    0 < c -> Forall (fun d => 0 < d) shape -> c <= fold_left Z.mul shape c.
Proof.
  induction shape as [| d rest IH]; intros c Hc Hall; cbn [fold_left]; [lia |].
  inversion Hall as [| ? ? Hd Hrest]; subst.
  specialize (IH (c * d) ltac:(nia) Hrest). nia.
Qed.

(** The loop does not overflow when the dimensions are positive and their
    product fits [TIndex]. *)
Lemma requested_count_fits (shape : list Z) :
  forall c : Z,
    0 < c -> Forall (fun d => 0 < d) shape ->
    fold_left Z.mul shape c < 2 ^ (TIndex_bits - 1) ->
    requested_count TIndex_bits shape c = Ok (fold_left Z.mul shape c).
Proof.
  induction shape as [| d rest IH]; intros c Hc Hall Hfit; cbn [fold_left] in *.
  - reflexivity.
  - inversion Hall as [| ? ? Hd Hrest]; subst.
    assert (Hcd : 0 < c * d) by nia.
    pose proof (fold_left_mul_ge rest (c * d) Hcd Hrest) as Hge.
    assert (Hpow : 0 <= 2 ^ (TIndex_bits - 1)) by (apply Z.pow_nonneg; lia).
    cbn [requested_count]. unfold TIndex_fits.
    destruct (Z.leb_spec (- 2 ^ (TIndex_bits - 1)) (c * d)); [| lia].
    destruct (Z.ltb_spec (c * d) (2 ^ (TIndex_bits - 1))); [| lia].
    cbn [andb]. apply IH; assumption.
Qed.

(** C6.  For a tensor with [count > 0] and a requested shape whose product
    the loop computes as [requested]: when [requested] differs from the
    count, TENSOR_FILL is fatal, changes nothing, and its diagnostic
    mentions the tensor's name, the requested size and the actual size;
    when they are equal, TENSOR_FILL replaces the shape of that tensor and
    leaves its data and count, every other tensor and the fillers as they
    were. *)
Theorem TENSOR_FILL_nonempty
        (tensor : TensorRef) (shape : list Z) (ws : @Workspace T)
        (t : Tensor) (requested : Z) :
  tensor_map_ ws !! tensor = Some t ->
  0 < count t ->
  requested_count TIndex_bits shape 1 = Ok requested ->
  requested = shape_product shape /\
  (requested <> count t ->
     TENSOR_FILL TIndex_bits tensor shape ws =
       (Fatal (size_diag tensor requested (count t)), ws) /\
     mentions (tensor_name tensor) (size_diag tensor requested (count t)) /\
     mentions (pretty requested) (size_diag tensor requested (count t)) /\
     mentions (pretty (count t)) (size_diag tensor requested (count t))) /\
  (requested = count t ->
     TENSOR_FILL TIndex_bits tensor shape ws =
       (Ok tt,
        with_tensors ws
          (<[tensor := {| dims_ := shape; size_ := count t; data_ := data_ t |}]>
             (tensor_map_ ws)))).
Proof.
  intros Ht Hpos Hreq.
  pose proof (requested_count_product _ _ _ Hreq) as Hprod.
  split; [exact Hprod |].
  assert (Hstart :
             TENSOR_FILL TIndex_bits tensor shape ws =
             bindM (if requested =? count t then ret tt
                    else liftO (Fatal (size_diag tensor requested (count t))))
                   (fun _ => update_tensor tensor (Reshape shape)) ws).
  { unfold TENSOR_FILL.
    step_with (read_tensor_ok _ _ _ Ht).
    destruct (Z.eqb_spec (count t) 0) as [H0 | _]; [lia |].
    unfold bindM at 1, liftO at 1. rewrite Hreq.
    step_with (read_tensor_ok _ _ _ Ht). reflexivity. }
  rewrite Hstart. split.
  - intros Hne. split; [| apply size_diag_mentions].
    destruct (Z.eqb_spec requested (count t)) as [Heq | _]; [contradiction |].
    reflexivity.
  - intros Heq. rewrite Heq, Z.eqb_refl.
    rewrite (bindM_ok (ret tt) _ ws ws tt eq_refl).
    rewrite (update_tensor_ok _ _ _ _ Ht). unfold Reshape, shape_product.
    rewrite <- Hprod, Heq. reflexivity.
Qed.

(** C7.  For a tensor with [count = 0]: without a filler under its name
    TENSOR_FILL is fatal and changes nothing; with a filler it reshapes the
    tensor and lets the filler write every element, so that the count is
    the product of the requested shape. *)
Theorem TENSOR_FILL_empty
        (tensor : TensorRef) (shape : list Z) (ws : @Workspace T) (t : Tensor) :
  tensor_map_ ws !! tensor = Some t ->
  count t = 0 ->
  (GetFiller (tensor_name tensor) ws = None ->
     TENSOR_FILL TIndex_bits tensor shape ws = (Fatal (empty_diag tensor), ws) /\
     mentions (tensor_name tensor) (empty_diag tensor)) /\
  (forall f : TensorFiller,
     GetFiller (tensor_name tensor) ws = Some f ->
     exists t' : Tensor,
       TENSOR_FILL TIndex_bits tensor shape ws =
         (Ok tt, with_tensors ws (<[tensor := t']> (tensor_map_ ws))) /\
       count t' = shape_product shape /\
       dims_ t' = shape /\
       data_ t' = map (filler_value f) (seq 0 (Z.to_nat (shape_product shape)))).
Proof.
  intros Ht H0.
  assert (Hstart :
             TENSOR_FILL TIndex_bits tensor shape ws =
             bindM (match GetFiller (tensor_name tensor) ws with
                    | Some _ => ret tt
                    | None => liftO (Fatal (empty_diag tensor))
                    end)
                   (fun _ =>
                      update_tensor tensor (Reshape shape) ;;;
                      let! ws' := get in
                      let! filler :=
                        liftO (deref_filler (GetFiller (tensor_name tensor) ws')) in
                      update_tensor tensor (Fill filler)) ws).
  { unfold TENSOR_FILL.
    step_with (read_tensor_ok _ _ _ Ht).
    rewrite H0. cbn [Z.eqb]. reflexivity. }
  rewrite Hstart. split.
  - intros Hnone. rewrite Hnone. split; [reflexivity |].
    unfold mentions, empty_diag.
    exists ("Check failed: ws()->GetFiller(tensor.name()) " +:+ "Tensor(").
    eexists. rewrite !append_assoc. reflexivity.
  - intros f Hf. rewrite Hf.
    exists (Fill f (Reshape shape t)).
    split; [| repeat split].
    rewrite (bindM_ok (ret tt) _ ws ws tt eq_refl).
    step_with (update_tensor_ok _ _ _ _ Ht).
    unfold bindM at 1, get at 1.
    unfold GetFiller in *. cbn [filler_map_ with_tensors].
    unfold bindM at 1, liftO at 1. rewrite Hf. cbn [deref_filler].
    rewrite (update_tensor_ok _ _ (Reshape shape t)).
    + unfold with_tensors. cbn [tensor_map_ filler_map_].
      rewrite insert_insert_eq. reflexivity.
    + cbn [tensor_map_ with_tensors]. apply lookup_insert_eq.
Qed.

End TensorFill.

Lemma TENSOR_FILL_nonempty_witness :
  TENSOR_FILL 64 "w" [4] ws_w = (Fatal (size_diag "w" 4 6), ws_w) /\
  TENSOR_FILL 64 "w" [2; 3] ws_w =
    (Ok tt,
     with_tensors ws_w
       (<["w" := {| dims_ := [2; 3]; size_ := 6; data_ := [1; 2; 3; 4; 5; 6] |}]>
          (tensor_map_ ws_w))).
Proof.
  assert (Hw : tensor_map_ ws_w !! "w" =
               Some {| dims_ := [6]; size_ := 6; data_ := [1; 2; 3; 4; 5; 6] |})
    by reflexivity.
  split.
  - destruct (TENSOR_FILL_nonempty 64 "w" [4] ws_w _ 4 Hw eq_refl eq_refl)
      as [_ [H _]].
    apply H. discriminate.
  - destruct (TENSOR_FILL_nonempty 64 "w" [2; 3] ws_w _ 6 Hw eq_refl eq_refl)
      as [_ [_ H]].
    apply H. reflexivity.
Defined.

Lemma TENSOR_FILL_empty_witness :
  TENSOR_FILL 64 "a" [2; 3] ws_ab = (Fatal (empty_diag "a"), ws_ab) /\
  exists t' : Tensor,
    TENSOR_FILL 64 "v" [2; 3] ws_w =
      (Ok tt, with_tensors ws_w (<["v" := t']> (tensor_map_ ws_w))) /\
    count t' = 6 /\ data_ t' = [7; 7; 7; 7; 7; 7].
Proof.
  split.
  - destruct (TENSOR_FILL_empty 64 "a" [2; 3] ws_ab new_Tensor eq_refl eq_refl)
      as [H _].
    apply H. reflexivity.
  - destruct (TENSOR_FILL_empty 64 "v" [2; 3] ws_w new_Tensor eq_refl eq_refl)
      as [_ H].
    destruct (H {| filler_value := fun _ => 7 |} eq_refl) as (t' & Hrun & Hc & _ & Hd).
    exists t'. split; [exact Hrun | split; [exact Hc | exact Hd]].
Defined.

(** ** INIT_MULTIPLIER *)

Section Multiplier.

Context {T : Type}.
Variable one : T.

Lemma math_Set_ones (n : Z) (x : list T) :
  take (Z.to_nat n) (math_Set n one x) = replicate (Z.to_nat n) one.
Proof.
  unfold math_Set. apply take_app_length'. symmetry. apply length_replicate.
Qed.

Lemma INIT_MULTIPLIER_step (size : Z) (ws : @Workspace T) :
  exists ws' : Workspace,
    INIT_MULTIPLIER one size ws = (Ok "_t_multiplier", ws') /\
    is_Some (tensor_map_ ws' !! "_t_multiplier") /\
    filler_map_ ws' = filler_map_ ws /\
    (forall name : string,
        name <> "_t_multiplier" ->
        tensor_map_ ws' !! name = tensor_map_ ws !! name) /\
    (multiplier_count ws < size ->
       exists t' : Tensor,
         tensor_map_ ws' !! "_t_multiplier" = Some t' /\
         dims_ t' = [size] /\ count t' = size /\
         take (Z.to_nat size) (data_ t') = replicate (Z.to_nat size) one) /\
    (size <= multiplier_count ws ->
       (forall t : Tensor,
           tensor_map_ ws !! "_t_multiplier" = Some t -> ws' = ws) /\
       (tensor_map_ ws !! "_t_multiplier" = None ->
          tensor_map_ ws' !! "_t_multiplier" = Some new_Tensor)) /\
    multiplier_count ws' = Z.max (multiplier_count ws) size.
Proof.
  unfold INIT_MULTIPLIER, multiplier_count.
  unfold bindM at 1, CreateTensor at 1.
  destruct (tensor_map_ ws !! "_t_multiplier") as [t0 |] eqn:E0.
  - step_with (read_tensor_ok _ _ _ E0).
    destruct (Z.gtb_spec size (count t0)) as [Hgt | Hle].
    + step_with (update_tensor_ok _ _ _ _ E0).
      erewrite (bindM_ok _ _ _ _ tt).
      2:{ apply update_tensor_ok. cbn [tensor_map_ with_tensors].
          apply lookup_insert_eq. }
      eexists. split; [reflexivity |].
      cbn [tensor_map_ filler_map_ with_tensors].
      rewrite insert_insert_eq.
      split; [rewrite lookup_insert_eq; eexists; reflexivity |].
      split; [reflexivity | split; [| split; [| split]]].
      * intros name Hne. apply lookup_insert_ne. congruence.
      * intros _. eexists. split; [apply lookup_insert_eq |].
        cbn. unfold shape_product. cbn [fold_left].
        repeat split; try apply Z.mul_1_l. apply math_Set_ones.
      * intros H. lia.
      * rewrite lookup_insert_eq. cbn. unfold shape_product. cbn [fold_left]. lia.
    + exists ws. split; [reflexivity |].
      split; [rewrite E0; eexists; reflexivity |].
      split; [reflexivity | split; [reflexivity | split; [| split]]].
      * intros H. lia.
      * intros _. split; [reflexivity | intros H; discriminate H].
      * rewrite E0. lia.
  - set (ws1 := with_tensors ws (<["_t_multiplier" := new_Tensor]> (tensor_map_ ws))).
    assert (E1 : tensor_map_ ws1 !! "_t_multiplier" = Some new_Tensor)
      by apply lookup_insert_eq.
    step_with (read_tensor_ok _ _ _ E1).
    change (count new_Tensor) with 0.
    destruct (Z.gtb_spec size 0) as [Hgt | Hle].
    + step_with (update_tensor_ok _ _ _ _ E1).
      erewrite (bindM_ok _ _ _ _ tt).
      2:{ apply update_tensor_ok. cbn [tensor_map_ with_tensors].
          apply lookup_insert_eq. }
      eexists. split; [reflexivity |].
      cbn [tensor_map_ filler_map_ with_tensors ws1].
      rewrite !insert_insert_eq.
      split; [rewrite lookup_insert_eq; eexists; reflexivity |].
      split; [reflexivity | split; [| split; [| split]]].
      * intros name Hne. apply lookup_insert_ne. congruence.
      * intros _. eexists. split; [apply lookup_insert_eq |].
        cbn. unfold shape_product. cbn [fold_left].
        repeat split; try apply Z.mul_1_l. apply math_Set_ones.
      * intros H. lia.
      * rewrite lookup_insert_eq. cbn. unfold shape_product. cbn [fold_left]. lia.
    + exists ws1. split; [reflexivity |].
      split; [rewrite E1; eexists; reflexivity |].
      split; [reflexivity | split; [| split; [| split]]].
      * intros name Hne. apply lookup_insert_ne. congruence.
      * intros H. lia.
      * intros _. split; [intros t H; discriminate H | intros _; exact E1].
      * rewrite E1. cbn. lia.
Qed.

Lemma INIT_MULTIPLIER_each_count (sizes : list Z) :
  forall ws : @Workspace T,
    exists ws' : Workspace,
      INIT_MULTIPLIER_each one sizes ws = (Ok tt, ws') /\
      multiplier_count ws' = fold_left Z.max sizes (multiplier_count ws).
Proof.
  induction sizes as [| size rest IH]; intros ws.
  - exists ws. split; reflexivity.
  - destruct (INIT_MULTIPLIER_step size ws) as (ws1 & Hrun & _ & _ & _ & _ & _ & Hc).
    destruct (IH ws1) as (ws' & Hrest & Hc').
    exists ws'. cbn [INIT_MULTIPLIER_each fold_left].
    step_with Hrun. rewrite Hrest, Hc', Hc.
    split; reflexivity.
Qed.

Lemma fold_left_max_ge (sizes : list Z) :
  forall c : Z, c <= fold_left Z.max sizes c.
Proof.
  induction sizes as [| s rest IH]; intros c; cbn [fold_left]; [lia |].
  specialize (IH (Z.max c s)). lia.
Qed.

(** C8.  [INIT_MULTIPLIER] returns the workspace tensor "_t_multiplier",
    which exists afterwards (it is created when absent), and touches no
    other tensor and no filler.
    When the requested size exceeds its count the tensor gets the shape
    [[size]], the count [size], and ones in its first [size] elements;
    otherwise a tensor that existed is left as it was (the workspace is
    unchanged).  So the count is the larger of the count before and the
    requested size, it never decreases over any sequence of calls, and a
    call with [m <= n] after a call that left the count at [n] leaves it
    at [n]: sizes [n] then [m], requested where the count was at most [n],
    end with the count [n]. *)
Theorem INIT_MULTIPLIER_never_shrinks (ws : @Workspace T) :
  (forall size : Z,
     exists ws' : Workspace,
       INIT_MULTIPLIER one size ws = (Ok "_t_multiplier", ws') /\
       is_Some (tensor_map_ ws' !! "_t_multiplier") /\
       filler_map_ ws' = filler_map_ ws /\
       (forall name : string,
           name <> "_t_multiplier" ->
           tensor_map_ ws' !! name = tensor_map_ ws !! name) /\
       (multiplier_count ws < size ->
          exists t' : Tensor,
            tensor_map_ ws' !! "_t_multiplier" = Some t' /\
            dims_ t' = [size] /\ count t' = size /\
            take (Z.to_nat size) (data_ t') = replicate (Z.to_nat size) one) /\
       (size <= multiplier_count ws ->
          (forall t : Tensor,
              tensor_map_ ws !! "_t_multiplier" = Some t -> ws' = ws) /\
          (tensor_map_ ws !! "_t_multiplier" = None ->
             tensor_map_ ws' !! "_t_multiplier" = Some new_Tensor)) /\
       multiplier_count ws' = Z.max (multiplier_count ws) size) /\
  (forall sizes : list Z,
     exists ws' : Workspace,
       INIT_MULTIPLIER_each one sizes ws = (Ok tt, ws') /\
       multiplier_count ws <= multiplier_count ws') /\
  (forall (n m : Z) (ws1 : Workspace),
     m <= n ->
     INIT_MULTIPLIER one n ws = (Ok "_t_multiplier", ws1) ->
     multiplier_count ws1 = n ->
     exists ws2 : Workspace,
       INIT_MULTIPLIER one m ws1 = (Ok "_t_multiplier", ws2) /\
       multiplier_count ws2 = n) /\
  (forall n m : Z,
     m <= n -> multiplier_count ws <= n ->
     exists ws2 : Workspace,
       INIT_MULTIPLIER_each one [n; m] ws = (Ok tt, ws2) /\
       multiplier_count ws2 = n).
Proof.
  split; [| split; [| split]].
  - intros size. apply INIT_MULTIPLIER_step.
  - intros sizes.
    destruct (INIT_MULTIPLIER_each_count sizes ws) as (ws' & Hrun & Hc).
    exists ws'. split; [exact Hrun |]. rewrite Hc. apply fold_left_max_ge.
  - intros n m ws1 Hmn _ Hn.
    destruct (INIT_MULTIPLIER_step m ws1) as (ws2 & Hrun & _ & _ & _ & _ & _ & Hc).
    exists ws2. split; [exact Hrun |]. rewrite Hc, Hn. lia.
  - intros n m Hmn Hn.
    destruct (INIT_MULTIPLIER_each_count [n; m] ws) as (ws2 & Hrun & Hc).
    exists ws2. split; [exact Hrun |]. rewrite Hc. cbn [fold_left]. lia.
Qed.

End Multiplier.

Lemma INIT_MULTIPLIER_never_shrinks_witness :
  exists ws2 : @Workspace Z,
    INIT_MULTIPLIER 1 3
      (snd (INIT_MULTIPLIER 1 5 ws_ab)) = (Ok "_t_multiplier", ws2) /\
    multiplier_count ws2 = 5.
Proof.
  destruct (INIT_MULTIPLIER_never_shrinks 1 ws_ab) as [_ [_ [H _]]].
  apply (H 5 3 (snd (INIT_MULTIPLIER 1 5 ws_ab))).
  - lia.
  - reflexivity.
  - reflexivity.
Defined.

(** * Further properties *)

(** ** How often MemorySwitch asks a tensor to switch *)

Section Requests.

Context {T : Type}.

Lemma requests_for_switches (t : string) (l : list string) :
  requests_for t (map Tensor_SwitchToDevice (List.filter named l)) =
    if named t then occurrences t l else 0%nat.
Proof.
  unfold requests_for, occurrences.
  induction l as [| x l IH]; cbn [List.filter map].
  - destruct (named t); reflexivity.
  - destruct (named x) eqn:Ex; cbn [map List.filter is_switch_of].
    + destruct (String.eqb_spec t x) as [-> | Hne]; cbn [length].
      * rewrite IH, Ex. reflexivity.
      * rewrite IH. reflexivity.
    + destruct (String.eqb_spec t x) as [-> | Hne]; cbn [length].
      * rewrite IH, Ex. reflexivity.
      * exact IH.
Qed.

Lemma occurrences_app (t : string) (l1 l2 : list string) :
  occurrences t (l1 ++ l2) = (occurrences t l1 + occurrences t l2)%nat.
Proof. unfold occurrences. rewrite List.filter_app, length_app. reflexivity. Qed.

Lemma named_or_ignore_length (l : list string) :
  (length (List.filter named l) + occurrences "ignore" l = length l)%nat.
Proof.
  unfold occurrences, named, tensor_name.
  induction l as [| x l IH]; [reflexivity |]. cbn [List.filter length].
  rewrite (String.eqb_sym "ignore" x).
  destruct (String.eqb x "ignore"); cbn [negb length]; lia.
Qed.

(** X1.  [MemorySwitch] does not deduplicate: a tensor whose name is not
    "ignore" is asked to switch once for every input slot and once for every
    output slot that holds it (twice for an operator working in place), a
    tensor named "ignore" never; together with the skipped "ignore" slots
    the requests account for every slot. *)
Theorem MemorySwitch_requests (op : Operator) (w : @World T) (t : TensorRef) :
  InputSize (base op) <= INT_MAX ->
  OutputSize (base op) <= INT_MAX ->
  exists new : list Call,
    MemorySwitch op w = (Ok tt, add_calls w (Call_MemorySwitch :: new)) /\
    requests_for t new =
      (if named t
       then (occurrences t (inputs_ (base op)) + occurrences t (outputs_ (base op)))%nat
       else 0%nat) /\
    (length new
     + occurrences "ignore" (inputs_ (base op))
     + occurrences "ignore" (outputs_ (base op))
     = length (inputs_ (base op)) + length (outputs_ (base op)))%nat.
Proof.
  intros Hin Hout. exists (switched op).
  split; [apply MemorySwitch_calls; assumption | split].
  - unfold switched. rewrite requests_for_switches, occurrences_app. reflexivity.
  - unfold switched. rewrite length_map.
    pose proof (named_or_ignore_length (inputs_ (base op) ++ outputs_ (base op)))
      as H.
    rewrite occurrences_app, length_app in H. lia.
Qed.

End Requests.

Lemma MemorySwitch_requests_witness :
  exists new : list Call,
    MemorySwitch relu_op world_ab =
      (Ok tt, add_calls world_ab (Call_MemorySwitch :: new)) /\
    requests_for "a" new = 2%nat.
Proof.
  destruct (MemorySwitch_requests relu_op world_ab "a") as (new & Hrun & Hreq & _).
  - vm_compute. discriminate.
  - vm_compute. discriminate.
  - exists new. split; [exact Hrun | exact Hreq].
Defined.

(** ** Run: debug mode and failing hooks *)

Section RunEdges.

Context {T : Type}.

(** X2.  In debug mode [Run] does not depend on [ShareBeforeRun] and
    [ClearAfterRun]: two kernels with the same [RunOnDevice] give the same
    outcome, workspace and calls, whatever the hooks would do and whether
    or not the kernel returns. *)
Theorem Run_debug_ignores_hooks (k k' : @Kernel T) (op : Operator) (w : World) :
  def_debug_mode (op_def (base op)) = true ->
  (forall ws : Workspace, RunOnDevice k op ws = RunOnDevice k' op ws) ->
  Run k op w = Run k' op w.
Proof.
  unfold op_def. intros Hdebug Hsame. unfold Run. rewrite Hdebug. cbn [negb].
  destruct (negb (allow_run_ op)); [reflexivity |].
  do 2 step_with (log_add Ctx_SwitchToDevice w).
  set (w1 := add_calls w [Ctx_SwitchToDevice]).
  rewrite !(bindM_ok (ret tt) _ w1 w1 tt eq_refl).
  unfold bindM at 1. symmetry. unfold bindM at 1. symmetry.
  destruct (MemorySwitch op w1) as [[[] | d | u] w2]; try reflexivity.
  unfold bindM, log, on_workspace. cbn [workspace calls].
  rewrite Hsame. reflexivity.
Qed.

(** X3.  Outside debug mode a fatal [ShareBeforeRun] ends [Run] before
    [MemorySwitch]: no tensor is asked to switch and the kernel is not
    called.  A fatal [ClearAfterRun] ends [Run] after the kernel, whose
    effect on the workspace stays, and before [FinishDeviceCompution]. *)
Theorem Run_hook_fatal (k : @Kernel T) (op : Operator) (w : World) :
  allow_run op = true ->
  def_debug_mode (op_def (base op)) = false ->
  (forall (d : string) (ws1 : Workspace),
     ShareBeforeRun k op (workspace w) = (Fatal d, ws1) ->
     Run k op w =
       (Fatal d,
        {| workspace := ws1;
           calls := calls w ++ [Ctx_SwitchToDevice; Call_ShareBeforeRun] |})) /\
  (InputSize (base op) <= INT_MAX -> OutputSize (base op) <= INT_MAX ->
   forall (d : string) (ws1 ws2 ws3 : Workspace),
     ShareBeforeRun k op (workspace w) = (Ok tt, ws1) ->
     RunOnDevice k op ws1 = (Ok tt, ws2) ->
     ClearAfterRun k op ws2 = (Fatal d, ws3) ->
     Run k op w =
       (Fatal d,
        {| workspace := ws3;
           calls := calls w
                    ++ [Ctx_SwitchToDevice; Call_ShareBeforeRun; Call_MemorySwitch]
                    ++ switched op
                    ++ [Call_RunOnDevice; Call_ClearAfterRun] |})).
Proof.
  unfold allow_run, op_def. intros Hallow Hdebug. split.
  - intros d ws1 Hshare. unfold Run. rewrite Hallow, Hdebug. cbn [negb].
    step_with (log_add Ctx_SwitchToDevice w).
    set (w1 := add_calls w [Ctx_SwitchToDevice]).
    stop_with (hook_phase Call_ShareBeforeRun (ShareBeforeRun k op) w1
                          (Fatal d) ws1 Hshare).
    unfold w1, add_calls. cbn [workspace calls].
    rewrite <- !app_assoc. reflexivity.
  - intros Hin Hout d ws1 ws2 ws3 Hshare Hkernel Hclear.
    unfold Run. rewrite Hallow, Hdebug. cbn [negb].
    step_with (log_add Ctx_SwitchToDevice w).
    set (w1 := add_calls w [Ctx_SwitchToDevice]).
    step_with (hook_phase Call_ShareBeforeRun (ShareBeforeRun k op) w1
                          (Ok tt) ws1 Hshare).
    set (w2 := {| workspace := ws1; calls := calls w1 ++ [Call_ShareBeforeRun] |}).
    step_with (MemorySwitch_calls op w2 Hin Hout).
    set (w3 := add_calls w2 (Call_MemorySwitch :: switched op)).
    step_with (hook_phase Call_RunOnDevice (RunOnDevice k op) w3
                          (Ok tt) ws2 Hkernel).
    set (w4 := {| workspace := ws2; calls := calls w3 ++ [Call_RunOnDevice] |}).
    stop_with (hook_phase Call_ClearAfterRun (ClearAfterRun k op) w4
                          (Fatal d) ws3 Hclear).
    unfold w4, w3, w2, w1, add_calls. cbn [workspace calls].
    rewrite <- !app_assoc. reflexivity.
Qed.

End RunEdges.

Lemma Run_debug_ignores_hooks_witness :
  Run share_failing_kernel relu_op world_ab = Run idle_kernel relu_op world_ab.
Proof.
  apply Run_debug_ignores_hooks.
  - reflexivity.
  - intros ws. reflexivity.
Defined.

Lemma Run_hook_fatal_witness :
  Run share_failing_kernel add_op world_ab =
    (Fatal "Check failed: share",
     {| workspace := ws_ab;
        calls := [Ctx_SwitchToDevice; Call_ShareBeforeRun] |}) /\
  Run clear_failing_kernel add_op world_ab =
    (Fatal "Check failed: clear",
     {| workspace := ws_ab;
        calls := [Ctx_SwitchToDevice; Call_ShareBeforeRun; Call_MemorySwitch;
                  Tensor_SwitchToDevice "a"; Tensor_SwitchToDevice "b";
                  Tensor_SwitchToDevice "c";
                  Call_RunOnDevice; Call_ClearAfterRun] |}).
Proof.
  destruct add_op_sizes as [Hin Hout]. split.
  - destruct (Run_hook_fatal share_failing_kernel add_op world_ab eq_refl eq_refl)
      as [H _].
    exact (H "Check failed: share" ws_ab eq_refl).
  - destruct (Run_hook_fatal clear_failing_kernel add_op world_ab eq_refl eq_refl)
      as [_ H].
    exact (H Hin Hout "Check failed: clear" ws_ab ws_ab ws_ab
             eq_refl eq_refl eq_refl).
Defined.

(** ** Construction, the rank gate and Run together *)

Section Disabled.

Context {T : Type}.

Lemma Operator_ctor_inv (env : Env) (op_def : OperatorDef)
      (ws ws' : @Workspace T) (op : Operator) :
  Operator_ctor env op_def ws = (Ok op, ws') ->
  OperatorBase_ctor op_def ws = (Ok (base op), ws') /\
  exists gate : bool, _MPICheck env (base op) = Ok gate.
Proof.
  unfold Operator_ctor. unfold bindM at 1.
  destruct (OperatorBase_ctor op_def ws) as [[b | d | u] w1]; try discriminate.
  unfold bindM at 1, liftO at 1.
  destruct (_MPICheck env b) as [gate | d | u] eqn:Eg; try discriminate.
  unfold bindM, liftO. rewrite output_wanted_spec. unfold ret.
  intros H. inversion H; subst. cbn [base].
  split; [reflexivity | exists gate; exact Eg].
Qed.

(** X4.  On a build with MPI, an operator whose "mpi_rank" list is not
    empty and does not hold the rank of the process is constructed but
    disabled: with any kernel, from any state, its [Run] makes no call and
    changes nothing. *)
Theorem excluded_rank_never_runs
        (env : Env) (op_def : OperatorDef) (ws ws1 : @Workspace T)
        (b : OperatorBase) (allow_ranks : list Z) :
  OperatorBase_ctor op_def ws = (Ok b, ws1) ->
  WITH_MPI env = true ->
  GetRepeatedArg_int b "mpi_rank" = Ok allow_ranks ->
  allow_ranks <> [] ->
  MPI_Comm_rank env ∉ allow_ranks ->
  exists op : Operator,
    Operator_ctor env op_def ws = (Ok op, ws1) /\
    allow_run op = false /\
    forall (k : @Kernel T) (w : World), Run k op w = (Ok tt, w).
Proof.
  intros Hb Hmpi Hranks Hne Hout.
  assert (Hgate : _MPICheck env b = Ok false).
  { unfold _MPICheck. rewrite Hmpi, Hranks. cbn [negb bindO].
    destruct allow_ranks as [| r rest]; [contradiction |].
    f_equal. apply not_true_is_false. intros H.
    apply Hout, rank_listed_elem, H. }
  unfold Operator_ctor. step_with Hb.
  unfold bindM at 1, liftO at 1. rewrite Hgate.
  unfold bindM, liftO. rewrite output_wanted_spec. unfold ret.
  eexists. split; [reflexivity |]. cbn [allow_run allow_run_ andb].
  split; [reflexivity |].
  intros k w. apply Run_not_allowed. reflexivity.
Qed.

End Disabled.

Lemma excluded_rank_never_runs_witness :
  exists op : Operator,
    Operator_ctor rank1 add_def ws_ab =
      (Ok op, with_tensors ws_ab (<["c" := new_Tensor]> (tensor_map_ ws_ab))) /\
    allow_run op = false /\
    Run failing_kernel op world_ab = (Ok tt, world_ab).
Proof.
  destruct (excluded_rank_never_runs rank1 add_def ws_ab
              (with_tensors ws_ab (<["c" := new_Tensor]> (tensor_map_ ws_ab)))
              add_base [0; 2] eq_refl eq_refl eq_refl)
    as (op & Hc & Hallow & Hrun).
  - discriminate.
  - cbn. intros Hin. apply rank_listed_elem in Hin. discriminate Hin.
  - exists op. split; [exact Hc | split; [exact Hallow | apply Hrun]].
Defined.

(** ** The argument map after a failed lookup *)

(** X9.  A lookup of an absent name through [arg] is not read-only: the map
    seen through [args] grows by exactly one entry, a null pointer under
    that name, and keeps every other entry; a second lookup of the name
    reads that null pointer again and changes nothing further. *)
Theorem arg_absent_grows_map (op : OperatorBase) (name : string) :
  args_ op !! name = None ->
  exists op1 : OperatorBase,
    arg name op = (Undefined NullDereference, op1) /\
    args op1 !! name = Some None /\
    size (args op1) = S (size (args op)) /\
    (forall other : string, other <> name -> args op1 !! other = args op !! other) /\
    inputs_ op1 = inputs_ op /\ outputs_ op1 = outputs_ op /\
    op_def_ op1 = op_def_ op /\ phase_ op1 = phase_ op /\
    arg name op1 = (Undefined NullDereference, op1).
Proof.
  intros Habs. exists (with_args op (<[name := None]> (args_ op))).
  unfold args. cbn [args_ inputs_ outputs_ op_def_ phase_ with_args].
  split; [| split; [| split; [| split]]].
  - unfold arg, map_subscript. rewrite Habs. reflexivity.
  - apply lookup_insert_eq.
  - apply map_size_insert_None, Habs.
  - intros other Hne. apply lookup_insert_ne. congruence.
  - repeat split.
    unfold arg, map_subscript. cbn [args_ with_args].
    rewrite lookup_insert_eq. reflexivity.
Qed.

Lemma arg_absent_grows_map_witness :
  exists op1 : OperatorBase,
    arg "scale" add_base = (Undefined NullDereference, op1) /\
    size (args op1) = 3%nat /\
    arg "scale" op1 = (Undefined NullDereference, op1).
Proof.
  destruct (arg_absent_grows_map add_base "scale" eq_refl)
    as (op1 & Hrun & _ & Hsize & _ & _ & _ & _ & _ & Hagain).
  exists op1. split; [exact Hrun | split; [exact Hsize | exact Hagain]].
Defined.

(** ** anchor *)

Section Anchor.

Context {T : Type}.

(** X10.  For a constructed operator, [anchor()] is the operator's name
    when the descriptor has no argument named "anchor", and the string of
    that argument when it has one. *)
Theorem anchor_of_constructed
        (env : Env) (op_def : OperatorDef) (ws ws' : @Workspace T) (op : Operator) :
  Operator_ctor env op_def ws = (Ok op, ws') ->
  ((forall a : Argument, a ∈ def_arg op_def -> arg_name a <> "anchor") ->
     anchor op = Ok (def_name op_def)) /\
  (forall s : string,
     {| arg_name := "anchor"; arg_value := ArgString s |} ∈ def_arg op_def ->
     anchor op = Ok s).
Proof.
  intros Hc. destruct (Operator_ctor_inv _ _ _ _ _ Hc) as [Hb _].
  destruct (OperatorBase_ctor_fields _ _ _ _ Hb) as (Hdef & _ & _ & Hargs).
  unfold anchor, GetSingleArg_string, name. split.
  - intros Hno. rewrite (build_args_frame _ _ _ _ "anchor" Hargs Hno).
    rewrite lookup_empty, Hdef. reflexivity.
  - intros s Hin. apply list_elem_of_lookup in Hin. destruct Hin as [j Hj].
    pose proof (build_args_lookup _ _ _ _ _ _ Hargs Hj) as Hm.
    cbn [arg_name Nat.add] in Hm. rewrite Hm. unfold deref_arg. cbn [bindO].
    rewrite Hdef, Hj. reflexivity.
Qed.

End Anchor.

Lemma anchor_of_constructed_witness :
  anchor relu_op = Ok "relu" /\ anchor add_op = Ok "add1".
Proof.
  split.
  - destruct (anchor_of_constructed no_mpi relu_def ws_ab ws_ab relu_op eq_refl)
      as [_ H].
    apply H. left.
  - destruct (anchor_of_constructed no_mpi add_def ws_ab
                (with_tensors ws_ab (<["c" := new_Tensor]> (tensor_map_ ws_ab)))
                add_op eq_refl) as [H _].
    apply H. intros a Ha.
    apply list_elem_of_In in Ha. cbn in Ha.
    destruct Ha as [<- | [<- | []]]; discriminate.
Defined.

(** ** TENSOR_FILL: what it leaves alone, and filling only once *)

Section FillOnce.

Context {T : Type}.
Variable TIndex_bits : Z.

Lemma with_tensors_same (ws : @Workspace T) : with_tensors ws (tensor_map_ ws) = ws.
Proof. destruct ws. reflexivity. Qed.

(** The result of TENSOR_FILL, branch by branch. *)
Lemma TENSOR_FILL_run (tensor : string) (shape : list Z) (ws : @Workspace T) :
  TENSOR_FILL TIndex_bits tensor shape ws =
    match tensor_map_ ws !! tensor with
    | None => (Undefined DanglingReference, ws)
    | Some t =>
        if count t =? 0 then
          match GetFiller (tensor_name tensor) ws with
          | None => (Fatal (empty_diag tensor), ws)
          | Some f =>
              (Ok tt,
               with_tensors ws
                 (<[tensor := Fill f (Reshape shape t)]> (tensor_map_ ws)))
          end
        else
          match requested_count TIndex_bits shape 1 with
          | Ok requested =>
              if requested =? count t then
                (Ok tt,
                 with_tensors ws (<[tensor := Reshape shape t]> (tensor_map_ ws)))
              else (Fatal (size_diag tensor requested (count t)), ws)
          | Fatal d => (Fatal d, ws)
          | Undefined u => (Undefined u, ws)
          end
    end.
Proof.
  unfold TENSOR_FILL.
  destruct (tensor_map_ ws !! tensor) as [t |] eqn:Ht.
  - step_with (read_tensor_ok _ _ _ Ht).
    destruct (count t =? 0).
    + unfold bindM at 1, get at 1.
      destruct (GetFiller (tensor_name tensor) ws) as [f |] eqn:Hf;
        [| reflexivity].
      rewrite (bindM_ok (ret tt) _ ws ws tt eq_refl).
      step_with (update_tensor_ok _ _ _ _ Ht).
      unfold bindM at 1, get at 1.
      unfold GetFiller in *. cbn [filler_map_ with_tensors].
      unfold bindM at 1, liftO at 1. rewrite Hf. cbn [deref_filler].
      rewrite (update_tensor_ok _ _ (Reshape shape t)).
      * unfold with_tensors. cbn [tensor_map_ filler_map_].
        rewrite insert_insert_eq. reflexivity.
      * cbn [tensor_map_ with_tensors]. apply lookup_insert_eq.
    + unfold bindM at 1, liftO at 1.
      destruct (requested_count TIndex_bits shape 1) as [r | d | u];
        try reflexivity.
      step_with (read_tensor_ok _ _ _ Ht).
      destruct (r =? count t).
      * rewrite (bindM_ok (ret tt) _ ws ws tt eq_refl).
        apply (update_tensor_ok _ _ _ _ Ht).
      * reflexivity.
  - unfold bindM, read_tensor. rewrite Ht. reflexivity.
Qed.

(** X5.  Whatever its outcome, TENSOR_FILL leaves every filler and every
    other tensor as they were and neither creates nor removes a tensor; and
    when it does not return normally the workspace is exactly as it was
    (no reshape is left behind by a failed check). *)
Theorem TENSOR_FILL_frame
        (tensor : TensorRef) (shape : list Z) (ws ws' : @Workspace T)
        (o : Outcome unit) :
  TENSOR_FILL TIndex_bits tensor shape ws = (o, ws') ->
  filler_map_ ws' = filler_map_ ws /\
  (forall other : string,
     other <> tensor -> tensor_map_ ws' !! other = tensor_map_ ws !! other) /\
  (forall name : string,
     is_Some (tensor_map_ ws' !! name) <-> is_Some (tensor_map_ ws !! name)) /\
  (o <> Ok tt -> ws' = ws).
Proof.
  rewrite TENSOR_FILL_run.
  assert (Hsame : forall o0 : Outcome unit,
             (o0, ws) = (o, ws') ->
             filler_map_ ws' = filler_map_ ws /\
             (forall other : string,
                 other <> tensor ->
                 tensor_map_ ws' !! other = tensor_map_ ws !! other) /\
             (forall name : string,
                 is_Some (tensor_map_ ws' !! name) <->
                 is_Some (tensor_map_ ws !! name)) /\
             (o <> Ok tt -> ws' = ws)).
  { intros o0 H. inversion H; subst. repeat split; auto. }
  assert (Hupd : forall t t' : Tensor,
             tensor_map_ ws !! tensor = Some t ->
             (Ok tt, with_tensors ws (<[tensor := t']> (tensor_map_ ws))) = (o, ws') ->
             filler_map_ ws' = filler_map_ ws /\
             (forall other : string,
                 other <> tensor ->
                 tensor_map_ ws' !! other = tensor_map_ ws !! other) /\
             (forall name : string,
                 is_Some (tensor_map_ ws' !! name) <->
                 is_Some (tensor_map_ ws !! name)) /\
             (o <> Ok tt -> ws' = ws)).
  { intros t t' Ht H. inversion H; subst. cbn [tensor_map_ filler_map_ with_tensors].
    split; [reflexivity | split; [| split]].
    - intros other Hne. apply lookup_insert_ne. congruence.
    - intros name. destruct (decide (tensor = name)) as [<- | Hne].
      + rewrite lookup_insert_eq, Ht. split; intros _; eexists; reflexivity.
      + rewrite lookup_insert_ne by exact Hne. reflexivity.
    - intros H0. contradiction. }
  destruct (tensor_map_ ws !! tensor) as [t |] eqn:Ht; [| apply Hsame].
  destruct (count t =? 0).
  - destruct (GetFiller (tensor_name tensor) ws);
      [apply (Hupd t _ eq_refl) | apply Hsame].
  - destruct (requested_count TIndex_bits shape 1) as [r | d | u];
      [| apply Hsame | apply Hsame].
    destruct (r =? count t); [apply (Hupd t _ eq_refl) | apply Hsame].
Qed.

(** X6.  TENSOR_FILL fills at most once.  After a call that returned, for a
    shape of non-zero product that the loop computes without overflow, a
    second call with the same shape returns and leaves the workspace exactly
    as the first call left it: the filler does not run again and no data
    changes. *)
Theorem TENSOR_FILL_twice
        (tensor : TensorRef) (shape : list Z) (ws ws1 : @Workspace T)
        (requested : Z) :
  TENSOR_FILL TIndex_bits tensor shape ws = (Ok tt, ws1) ->
  requested_count TIndex_bits shape 1 = Ok requested ->
  shape_product shape <> 0 ->
  TENSOR_FILL TIndex_bits tensor shape ws1 = (Ok tt, ws1).
Proof.
  intros Hfirst Hreq Hnz.
  pose proof (requested_count_product _ _ _ _ Hreq) as Hprod.
  assert (Hshaped : exists t1 : Tensor,
             tensor_map_ ws1 !! tensor = Some t1 /\
             dims_ t1 = shape /\ size_ t1 = shape_product shape).
  { rewrite TENSOR_FILL_run in Hfirst.
    destruct (tensor_map_ ws !! tensor) as [t |]; [| discriminate Hfirst].
    destruct (count t =? 0).
    - destruct (GetFiller (tensor_name tensor) ws) as [f |];
        [| discriminate Hfirst].
      inversion Hfirst; subst. eexists. split; [apply lookup_insert_eq |].
      split; reflexivity.
    - rewrite Hreq in Hfirst.
      destruct (requested =? count t); [| discriminate Hfirst].
      inversion Hfirst; subst. eexists. split; [apply lookup_insert_eq |].
      split; reflexivity. }
  destruct Hshaped as (t1 & Ht1 & Hdims & Hsize).
  rewrite TENSOR_FILL_run, Ht1, Hreq. unfold count. rewrite Hsize.
  destruct (Z.eqb_spec (shape_product shape) 0) as [H0 | _]; [contradiction |].
  fold (shape_product shape) in Hprod. rewrite Hprod, Z.eqb_refl.
  assert (Hre : Reshape shape t1 = t1).
  { destruct t1 as [d s x]. cbn in Hdims, Hsize. subst. reflexivity. }
  rewrite Hre, (insert_id _ _ _ Ht1), with_tensors_same. reflexivity.
Qed.

(** X7.  For a tensor that is not empty TENSOR_FILL never consults the
    fillers: with any other set of fillers in the workspace the outcome and
    the resulting tensors are the same, so a filler registered for a tensor
    that already holds data is never applied to it. *)
Theorem TENSOR_FILL_nonempty_ignores_fillers
        (tensor : TensorRef) (shape : list Z) (ws : @Workspace T) (t : Tensor)
        (fillers : gmap string TensorFiller) :
  tensor_map_ ws !! tensor = Some t ->
  count t <> 0 ->
  fst (TENSOR_FILL TIndex_bits tensor shape
         {| tensor_map_ := tensor_map_ ws; filler_map_ := fillers |}) =
    fst (TENSOR_FILL TIndex_bits tensor shape ws) /\
  tensor_map_ (snd (TENSOR_FILL TIndex_bits tensor shape
                      {| tensor_map_ := tensor_map_ ws; filler_map_ := fillers |})) =
    tensor_map_ (snd (TENSOR_FILL TIndex_bits tensor shape ws)).
Proof.
  intros Ht Hnz. rewrite !TENSOR_FILL_run. cbn [tensor_map_]. rewrite Ht.
  destruct (Z.eqb_spec (count t) 0) as [H0 | _]; [contradiction |].
  destruct (requested_count TIndex_bits shape 1) as [r | d | u];
    [| split; reflexivity | split; reflexivity].
  destruct (r =? count t); split; reflexivity.
Qed.

End FillOnce.

Lemma TENSOR_FILL_frame_witness :
  filler_map_ (snd (TENSOR_FILL 64 "w" [4] ws_w)) = filler_map_ ws_w /\
  snd (TENSOR_FILL 64 "w" [4] ws_w) = ws_w.
Proof.
  destruct (TENSOR_FILL_frame 64 "w" [4] ws_w
              (snd (TENSOR_FILL 64 "w" [4] ws_w))
              (fst (TENSOR_FILL 64 "w" [4] ws_w)) eq_refl)
    as (Hf & _ & _ & Hsame).
  split; [exact Hf | apply Hsame; discriminate].
Defined.

Lemma TENSOR_FILL_twice_witness :
  TENSOR_FILL 64 "v" [2; 3] (snd (TENSOR_FILL 64 "v" [2; 3] ws_w)) =
    (Ok tt, snd (TENSOR_FILL 64 "v" [2; 3] ws_w)).
Proof.
  apply (TENSOR_FILL_twice 64 "v" [2; 3] ws_w _ 6).
  - reflexivity.
  - reflexivity.
  - discriminate.
Defined.

Lemma TENSOR_FILL_nonempty_ignores_fillers_witness :
  fst (TENSOR_FILL 64 "w" [2; 3]
         {| tensor_map_ := tensor_map_ ws_w;
            filler_map_ := {[ "w" := {| filler_value := fun _ => 9 |} ]} |}) =
    fst (TENSOR_FILL 64 "w" [2; 3] ws_w).
Proof.
  destruct (TENSOR_FILL_nonempty_ignores_fillers 64 "w" [2; 3] ws_w
              {| dims_ := [6]; size_ := 6; data_ := [1; 2; 3; 4; 5; 6] |}
              {[ "w" := {| filler_value := fun _ => 9 |} ]} eq_refl)
    as [H _].
  - discriminate.
  - exact H.
Defined.

(** ** INIT_MULTIPLIER: what a caller reads *)

Section MultiplierOnes.

Context {T : Type}.
Variable one : T.

Lemma take_ones (n m : Z) (x : list T) :
  n <= m ->
  take (Z.to_nat m) x = replicate (Z.to_nat m) one ->
  take (Z.to_nat n) x = replicate (Z.to_nat n) one.
Proof.
  intros Hnm Hm.
  assert (Hle : (Z.to_nat n <= Z.to_nat m)%nat) by lia.
  rewrite <- (Nat.min_l _ _ Hle) at 1.
  rewrite <- take_take, Hm, take_replicate, Nat.min_l by exact Hle.
  reflexivity.
Qed.

Lemma INIT_MULTIPLIER_keeps_ones (size : Z) (ws : @Workspace T) :
  multiplier_holds_ones one ws ->
  exists (ws' : Workspace) (t' : Tensor),
    INIT_MULTIPLIER one size ws = (Ok "_t_multiplier", ws') /\
    multiplier_holds_ones one ws' /\
    tensor_map_ ws' !! "_t_multiplier" = Some t' /\
    size <= count t' /\
    take (Z.to_nat size) (data_ t') = replicate (Z.to_nat size) one.
Proof.
  intros Hinv.
  destruct (INIT_MULTIPLIER_step one size ws)
    as (ws' & Hrun & _ & _ & _ & Hgrow & Hkeep & _).
  unfold multiplier_count in Hgrow, Hkeep.
  destruct (tensor_map_ ws !! "_t_multiplier") as [t0 |] eqn:E0.
  - destruct (Z.lt_ge_cases (count t0) size) as [Hlt | Hge].
    + destruct (Hgrow Hlt) as (t' & Ht' & _ & Hc & Hones).
      exists ws', t'. split; [exact Hrun |].
      split; [| split; [exact Ht' | split; [lia | exact Hones]]].
      intros t Ht. rewrite Ht' in Ht. inversion Ht; subst t.
      rewrite Hc. exact Hones.
    + destruct (Hkeep Hge) as [Hsame _]. rewrite (Hsame t0 eq_refl) in *.
      exists ws, t0. split; [exact Hrun |].
      split; [exact Hinv | split; [exact E0 | split; [exact Hge |]]].
      apply (take_ones size (count t0)); [exact Hge | apply Hinv, E0].
  - destruct (Z.lt_ge_cases 0 size) as [Hlt | Hge].
    + destruct (Hgrow Hlt) as (t' & Ht' & _ & Hc & Hones).
      exists ws', t'. split; [exact Hrun |].
      split; [| split; [exact Ht' | split; [lia | exact Hones]]].
      intros t Ht. rewrite Ht' in Ht. inversion Ht; subst t.
      rewrite Hc. exact Hones.
    + destruct (Hkeep Hge) as [_ Hnew]. specialize (Hnew eq_refl).
      exists ws', new_Tensor. split; [exact Hrun |].
      split; [| split; [exact Hnew | split; [exact Hge |]]].
      * intros t Ht. rewrite Hnew in Ht. inversion Ht; subst t. reflexivity.
      * replace (Z.to_nat size) with 0%nat by lia. reflexivity.
Qed.

Lemma INIT_MULTIPLIER_again (m : Z) (ws : @Workspace T) (t : Tensor) :
  tensor_map_ ws !! "_t_multiplier" = Some t ->
  m <= count t ->
  INIT_MULTIPLIER one m ws = (Ok "_t_multiplier", ws).
Proof.
  intros Ht Hm. unfold INIT_MULTIPLIER.
  unfold bindM at 1, CreateTensor at 1. rewrite Ht.
  step_with (read_tensor_ok ws "_t_multiplier" t Ht).
  destruct (Z.gtb_spec m (count t)); [lia | reflexivity].
Qed.

(** X8.  The multiplier is a cache of ones.  If every element of the
    multiplier is [one] before a call (as in a workspace where it does not
    exist yet), then after [INIT_MULTIPLIER(size)] that still holds, the
    tensor has at least [size] elements and its first [size] elements are
    [one], also when the call reused a larger tensor; and any later call
    for at most [size] elements changes nothing in the workspace. *)
Theorem INIT_MULTIPLIER_ones (size : Z) (ws : @Workspace T) :
  multiplier_holds_ones one ws ->
  exists (ws' : Workspace) (t' : Tensor),
    INIT_MULTIPLIER one size ws = (Ok "_t_multiplier", ws') /\
    multiplier_holds_ones one ws' /\
    tensor_map_ ws' !! "_t_multiplier" = Some t' /\
    size <= count t' /\
    take (Z.to_nat size) (data_ t') = replicate (Z.to_nat size) one /\
    (forall m : Z,
       m <= size -> INIT_MULTIPLIER one m ws' = (Ok "_t_multiplier", ws')).
Proof.
  intros Hinv.
  destruct (INIT_MULTIPLIER_keeps_ones size ws Hinv)
    as (ws' & t' & Hrun & Hinv' & Ht' & Hc & Hones).
  exists ws', t'. repeat (split; [assumption |]).
  intros m Hm. apply (INIT_MULTIPLIER_again m ws' t' Ht'). lia.
Qed.

End MultiplierOnes.

Lemma INIT_MULTIPLIER_ones_witness :
  exists (ws' : @Workspace Z) (t' : Tensor),
    INIT_MULTIPLIER 1 3 (snd (INIT_MULTIPLIER 1 5 ws_ab)) =
      (Ok "_t_multiplier", ws') /\
    count t' = 5 /\
    tensor_map_ ws' !! "_t_multiplier" = Some t' /\
    take 3 (data_ t') = [1; 1; 1].
Proof.
  assert (Hfresh : multiplier_holds_ones 1 ws_ab).
  { intros t Ht. discriminate Ht. }
  destruct (INIT_MULTIPLIER_ones 1 5 ws_ab Hfresh)
    as (ws1 & t1 & Hrun1 & Hinv1 & _).
  assert (Hws1 : snd (INIT_MULTIPLIER 1 5 ws_ab) = ws1) by (rewrite Hrun1; reflexivity).
  destruct (INIT_MULTIPLIER_ones 1 3 ws1 Hinv1)
    as (ws' & t' & Hrun & _ & Ht' & _ & Hones & _).
  rewrite Hws1. exists ws', t'.
  split; [exact Hrun | split; [| split; [exact Ht' | exact Hones]]].
  rewrite <- Hws1 in Hrun. vm_compute in Hrun. inversion Hrun; subst ws'.
  vm_compute in Ht'. inversion Ht'. reflexivity.
Defined.

(** ** Construction of an operator without outputs *)

Section NoOutputs.

Context {T : Type}.

(** X11.  The constructor's own test cannot abort.  With no outputs,
    [output(idx)] is fatal for every [idx], and the constructor never
    evaluates it: the size test comes first, so an operator without outputs
    is constructed, and is allowed to run exactly when the rank gate
    passes. *)
Theorem Operator_ctor_without_outputs
        (env : Env) (op_def : OperatorDef) (ws ws1 : @Workspace T)
        (b : OperatorBase) (gate : bool) :
  OperatorBase_ctor op_def ws = (Ok b, ws1) ->
  _MPICheck env b = Ok gate ->
  outputs_ b = [] ->
  (forall idx : Z, exists diag : string, output b idx = Fatal diag) /\
  exists op : Operator,
    Operator_ctor env op_def ws = (Ok op, ws1) /\
    base op = b /\ allow_run op = gate.
Proof.
  intros Hb Hg Hout. split.
  - intros idx. unfold output. rewrite Hout.
    apply vector_index_fatal.
    + vm_compute. discriminate.
    + unfold vector_size. cbn [length]. lia.
  - unfold Operator_ctor. step_with Hb.
    unfold bindM at 1, liftO at 1. rewrite Hg.
    unfold bindM, liftO. rewrite output_wanted_spec, Hout. unfold ret.
    eexists. split; [reflexivity |]. cbn [base allow_run allow_run_ negb andb].
    split; [reflexivity | apply andb_true_r].
Qed.

End NoOutputs.

Lemma Operator_ctor_without_outputs_witness :
  (exists diag : string, output sink_base 0 = Fatal diag) /\
  exists op : Operator,
    Operator_ctor no_mpi sink_def ws_ab = (Ok op, ws_ab) /\
    base op = sink_base /\ allow_run op = true.
Proof.
  destruct (Operator_ctor_without_outputs no_mpi sink_def ws_ab ws_ab sink_base
              true eq_refl eq_refl eq_refl) as [Hout Hop].
  split; [apply Hout | exact Hop].
Defined.
